(** * depgraph: the dependency graph of pypm (lib/depgraph.py)

    A shallow embedding of [lib/depgraph.py]: the order sequence [_Order],
    the mark primitives of [MarkMixin], the loader of the installed
    database, [add_requirement], [remove_package] and [get_marks], followed
    by the properties proved about them.

    Python dictionaries are association lists in insertion order (the
    iteration order of CPython 3.7 and later), exceptions are an outcome
    returned next to the graph as it stands when they are raised, and the
    two recursive methods take a fuel argument. *)

From Stdlib Require Import String Ascii List Bool PeanoNat NArith.
From Stdlib Require Import Permutation Sorted.
From Stdlib Require Import Relations Lia.
Import ListNotations.
Open Scope string_scope.
Open Scope list_scope.
Open Scope nat_scope.

Set Implicit Arguments.

(** ** Python values used by the module *)

(** The comparison operators of a version spec. *)
Inductive op : Type := OpLt | OpLe | OpEq | OpNe | OpGe | OpGt.

Record Requirement : Type := mkRequirement {
  project_name : string;
  specs : list (op * string);
  extras : list string
}.

(** The exceptions the module can end with. [RequirementNotFound] carries
    its two constructor arguments: the requirement, which the source passes
    either as a [Requirement] object (line 272) or as the string built by
    [req2str] (line 279), and [required_by]. *)
Inductive exn : Type :=
| RequirementNotFound (requirement : Requirement + string)
                      (required_by : option string)
| AssertionError
| AttributeError
| KeyError
| ValueError
| NameError.

Inductive outcome (A : Type) : Type :=
| Ok (a : A)
| Raise (e : exn)
| OutOfFuel.

Arguments Ok {A} a.
Arguments Raise {A} e.
Arguments OutOfFuel {A}.

(** ** Strings *)

Definition lower_ascii (c : ascii) : ascii :=
  let n := nat_of_ascii c in
  if (65 <=? n) && (n <=? 90) then ascii_of_nat (n + 32) else c.

(** [str.lower], on ASCII letters. *)
Fixpoint lower (s : string) : string :=
  match s with
  | EmptyString => EmptyString
  | String c s' => String (lower_ascii c) (lower s')
  end.

(** [sep.join(parts)] *)
Fixpoint join (sep : string) (parts : list string) : string :=
  match parts with
  | [] => ""
  | [x] => x
  | x :: rest => (x ++ sep ++ join sep rest)%string
  end.

Definition mem (x : string) (l : list string) : bool :=
  existsb (String.eqb x) l.

(** ** Versions and requirements (pkg_resources) *)

(** Modelled from the spec: [pkg_resources.parse_version] belongs to
    setuptools, not to this repository. Versions are dotted decimal release
    numbers, as every version of the source is; a key is the list of the
    numbers with trailing zeros dropped, so that 2.1 and 2.1.0 have one
    key. A character that is neither a digit nor a dot is skipped. *)
Fixpoint parse_parts (s : string) (acc : nat) : list nat :=
  match s with
  | EmptyString => [acc]
  | String c s' =>
      let n := nat_of_ascii c in
      if n =? 46 then acc :: parse_parts s' 0
      else if (48 <=? n) && (n <=? 57) then parse_parts s' (10 * acc + (n - 48))
      else parse_parts s' acc
  end.

Fixpoint strip_zeros (l : list nat) : list nat :=
  match l with
  | [] => []
  | x :: l' =>
      match x, strip_zeros l' with
      | 0, [] => []
      | _, t => x :: t
      end
  end.

Definition parse_version (v : string) : list nat :=
  strip_zeros (parse_parts v 0).

(** Comparison of keys, as Python compares tuples. *)
Fixpoint compare_key (a b : list nat) : comparison :=
  match a, b with
  | [], [] => Eq
  | [], _ :: _ => Lt
  | _ :: _, [] => Gt
  | x :: a', y :: b' =>
      match Nat.compare x y with
      | Eq => compare_key a' b'
      | c => c
      end
  end.

Definition key_eqb (a b : list nat) : bool :=
  match compare_key a b with Eq => true | _ => false end.

Definition key_gtb (a b : list nat) : bool :=
  match compare_key a b with Gt => true | _ => false end.

Definition op_holds (o : op) (c : comparison) : bool :=
  match o, c with
  | OpLt, Lt => true
  | OpLe, Lt | OpLe, Eq => true
  | OpEq, Eq => true
  | OpNe, Lt | OpNe, Gt => true
  | OpGe, Gt | OpGe, Eq => true
  | OpGt, Gt => true
  | _, _ => false
  end.

(** Modelled from the spec: [version in req], the [__contains__] of
    [pkg_resources.Requirement]. A version spec is the conjunction of its
    [(op, version)] clauses, each decided on the parsed versions. *)
Definition version_in (v : string) (req : Requirement) : bool :=
  forallb (fun c : op * string =>
             op_holds (fst c) (compare_key (parse_version v)
                                           (parse_version (snd c))))
          (specs req).

Definition op_str (o : op) : string :=
  match o with
  | OpLt => "<" | OpLe => "<=" | OpEq => "==" | OpNe => "!="
  | OpGe => ">=" | OpGt => ">"
  end.

(** Modelled from the spec: [str(r)] of a [pkg_resources.Requirement]:
    the project name, the extras in brackets when there are some, and the
    clauses joined by commas. *)
Definition req_str (r : Requirement) : string :=
  (project_name r
   ++ match extras r with
      | [] => ""
      | es => "[" ++ join "," es ++ "]"
      end
   ++ join "," (map (fun c : op * string => op_str (fst c) ++ snd c)
                    (specs r)))%string.

(** [req_name], line 372. *)
Definition req_name (r : Requirement) : string :=
  lower (project_name r).

(** [req2str], line 376. *)
Definition req2str (reqlist : list Requirement) : string :=
  join ", " (map req_str reqlist).

(** The distribution objects a subclass hands to the graph (docstring of
    [DepGraph], lines 207-213): [name], [version], with [version_key] the
    comparable key of the version string, and [get_requirements], called
    with the extras and, by the loader, with [exclude_default]. *)
Record Distribution : Type := mkDistribution {
  name : string;
  version : string;
  get_requirements : list string -> bool -> list Requirement
}.

Definition version_key (p : Distribution) : list nat :=
  parse_version (version p).

(** ** Dictionaries in insertion order *)

Section Dict.
Variables K V : Type.
Variable eqb : K -> K -> bool.

Fixpoint dict_get (k : K) (d : list (K * V)) : option V :=
  match d with
  | [] => None
  | (k', v) :: d' => if eqb k k' then Some v else dict_get k d'
  end.

(** [d[k] = v]: an existing key keeps its place, a new one goes last. *)
Fixpoint dict_set (k : K) (v : V) (d : list (K * V)) : list (K * V) :=
  match d with
  | [] => [(k, v)]
  | (k', v') :: d' =>
      if eqb k k' then (k, v) :: d' else (k', v') :: dict_set k v d'
  end.

Definition dict_has (k : K) (d : list (K * V)) : bool :=
  match dict_get k d with Some _ => true | None => false end.

(** [d[k]] on a [defaultdict]: a missing key is first bound to the
    default. *)
Definition dict_touch (dflt : V) (k : K) (d : list (K * V)) : list (K * V) :=
  if dict_has k d then d else d ++ [(k, dflt)].

Definition dict_find (dflt : V) (k : K) (d : list (K * V)) : V :=
  match dict_get k d with Some v => v | None => dflt end.
End Dict.

Definition opt_eqb (a b : option string) : bool :=
  match a, b with
  | Some x, Some y => String.eqb x y
  | None, None => true
  | _, _ => false
  end.

(** ** _Order (lines 380-403) *)

Record _Order : Type := mk_Order {
  _elements : list string;
  _elements_set : list string   (* a set: only membership is observed *)
}.

Definition empty_Order : _Order := mk_Order [] [].

(** [list.remove(x)]: drops the first occurrence. *)
Fixpoint list_remove (x : string) (l : list string) : list string :=
  match l with
  | [] => []
  | y :: l' => if String.eqb x y then l' else y :: list_remove x l'
  end.

(** [_Order.push]. On an element of [_elements_set] the source first
    removes it from [_elements] ([ValueError] when it is not there) and then
    evaluates [self._elements_set.remove(set)]: the argument is the builtin
    type [set], never an element, so the call raises [KeyError] with the
    list already shortened. *)
Definition push (element : string) (o : _Order) : outcome unit * _Order :=
  if mem element (_elements_set o) then
    if mem element (_elements o) then
      (Raise KeyError,
       mk_Order (list_remove element (_elements o)) (_elements_set o))
    else (Raise ValueError, o)
  else
    (Ok tt,
     mk_Order (_elements o ++ [element]) (_elements_set o ++ [element])).

Fixpoint enumerate_from (A : Type) (i : N) (l : list A) : list (N * A) :=
  match l with
  | [] => []
  | x :: l' => (i, x) :: enumerate_from (N.succ i) l'
  end.

(** [dict([(e, i) for (i, e) in enumerate(self._elements)])] *)
Definition indices (o : _Order) : list (string * N) :=
  fold_left (fun d ie => dict_set String.eqb (snd ie) (fst ie) d)
            (enumerate_from 0 (_elements o)) [].

Section Sort.
Variable A : Type.
Variable rank : A -> N.
Variable reverse : bool.

(** [x] may stand before [y] in the sorted list. *)
Definition before (x y : A) : bool :=
  if reverse then (rank y <=? rank x)%N else (rank x <=? rank y)%N.

Fixpoint insert (x : A) (l : list A) : list A :=
  match l with
  | [] => [x]
  | y :: l' => if before x y then x :: y :: l' else y :: insert x l'
  end.

(** [lst.sort(key=rank, reverse=reverse)]: a stable sort, also when
    reversed (elements of equal rank keep their order). *)
Fixpoint list_sort (l : list A) : list A :=
  match l with
  | [] => []
  | x :: l' => insert x (list_sort l')
  end.
End Sort.

(** [_Order.rearrange_list]; the list is returned instead of sorted in
    place. *)
Definition rearrange_list (A : Type) (o : _Order) (lst : list A)
    (key : A -> string) (reverse : bool) : list A :=
  list_sort (fun e => dict_find String.eqb 99999%N (key e) (indices o))
            reverse lst.

(** ** The graph store: MarkMixin (lines 44-166) *)

(** What [Node.pkg1] holds besides [None]: a distribution or the object
    [sentinal_delete]. *)
Inductive obj : Type :=
| Dist (p : Distribution)
| sentinal_delete.

(** [namedtuple('Node', 'name pkg pkg1')] *)
Record Node : Type := mkNode {
  node_name : string;
  pkg : option Distribution;
  pkg1 : option obj
}.

(** [edges[n1][n2] = [r1, r2, ...]]: [n1] is required by [n2]. The inner
    key is whatever the caller passed as [required_by], a name or [None]. *)
Definition Edges : Type :=
  list (string * list (option string * list Requirement)).

Record DepGraph : Type := mkDepGraph {
  nodes : list (string * Node);
  _order_new : _Order;
  _order_change : _Order;
  _order_remove : _Order;
  edges : Edges
}.

(** [MarkMixin.__init__] *)
Definition empty_graph : DepGraph :=
  mkDepGraph [] empty_Order empty_Order empty_Order [].

Definition set_nodes (g : DepGraph) n : DepGraph :=
  mkDepGraph n (_order_new g) (_order_change g) (_order_remove g) (edges g).
Definition set_order_new (g : DepGraph) o : DepGraph :=
  mkDepGraph (nodes g) o (_order_change g) (_order_remove g) (edges g).
Definition set_order_change (g : DepGraph) o : DepGraph :=
  mkDepGraph (nodes g) (_order_new g) o (_order_remove g) (edges g).
Definition set_order_remove (g : DepGraph) o : DepGraph :=
  mkDepGraph (nodes g) (_order_new g) (_order_change g) o (edges g).
Definition set_edges (g : DepGraph) e : DepGraph :=
  mkDepGraph (nodes g) (_order_new g) (_order_change g) (_order_remove g) e.

(** *** A state and exception monad over the graph *)

Definition M (A : Type) : Type := DepGraph -> outcome A * DepGraph.

Definition ret (A : Type) (a : A) : M A := fun g => (Ok a, g).

Definition raise (A : Type) (e : exn) : M A := fun g => (Raise e, g).

Definition bind (A B : Type) (m : M A) (k : A -> M B) : M B :=
  fun g =>
    match m g with
    | (Ok a, g') => k a g'
    | (Raise e, g') => (Raise e, g')
    | (OutOfFuel, g') => (OutOfFuel, g')
    end.

Arguments raise {A} e.

Notation "x <- m ;; k" := (bind m (fun x => k))
  (at level 61, m at next level, right associativity).
Notation "m ;;; k" := (bind m (fun _ => k))
  (at level 61, right associativity).

(** [assert b] *)
Definition assert (b : bool) : M unit :=
  if b then ret tt else raise AssertionError.

(** The result of a collaborator, which may itself have raised. *)
Definition call (A : Type) (o : outcome A) : M A := fun g => (o, g).

(** [for x in l: ret = any([ret, f(x)])] *)
Fixpoint for_any (A : Type) (f : A -> M bool) (l : list A) (ret0 : bool)
    : M bool :=
  match l with
  | [] => ret ret0
  | x :: l' => b <- f x ;; for_any f l' (ret0 || b)
  end.

(** [for x in l: f(x)] *)
Fixpoint for_each (A : Type) (f : A -> M unit) (l : list A) : M unit :=
  match l with
  | [] => ret tt
  | x :: l' => f x ;;; for_each f l'
  end.

(** Truth value of a [required_by] argument: [None] and the empty string
    are false. *)
Definition truthy (o : option string) : bool :=
  match o with
  | Some s => negb (String.eqb s "")
  | None => false
  end.

Definition has_package (g : DepGraph) (n : string) : bool :=
  dict_has String.eqb n (nodes g).

(** [self.edges[n1]], which binds a missing [n1] to an empty dictionary. *)
Definition edges_touch (n1 : string) (e : Edges) : Edges :=
  dict_touch String.eqb [] n1 e.

(** [self.edges[n1][n2].append(r)] *)
Definition edges_append (n1 : string) (n2 : option string) (r : Requirement)
    (e : Edges) : Edges :=
  let e1 := edges_touch n1 e in
  let inner := dict_find String.eqb [] n1 e1 in
  let rl := dict_find opt_eqb [] n2 inner in
  dict_set String.eqb n1 (dict_set opt_eqb n2 (rl ++ [r]) inner) e1.

(** [sum(self.edges[name].values(), [])], read without the binding. *)
Definition edge_reqs (e : Edges) (n : string) : list Requirement :=
  concat (map snd (dict_find String.eqb [] n e)).

(** [_mark_new_requirement], line 71 *)
Definition _mark_new_requirement (n1 : string) (n2 : option string)
    (r : Requirement) : M unit :=
  fun g => (Ok tt, set_edges g (edges_append n1 n2 r (edges g))).

Definition push_new (n : string) : M unit :=
  fun g => let (o, ord) := push n (_order_new g) in (o, set_order_new g ord).
Definition push_change (n : string) : M unit :=
  fun g =>
    let (o, ord) := push n (_order_change g) in (o, set_order_change g ord).
Definition push_remove (n : string) : M unit :=
  fun g =>
    let (o, ord) := push n (_order_remove g) in (o, set_order_remove g ord).

Definition set_node (n : string) (node : Node) : M unit :=
  fun g => (Ok tt, set_nodes g (dict_set String.eqb n node (nodes g))).

(** [_mark_for_install], line 74 *)
Definition _mark_for_install (n : string) (p : Distribution)
    (required_by : option string) (requirement : Requirement) : M Node :=
  fun g =>
    (assert (negb (has_package g n)) ;;;
     let node := mkNode n None (Some (Dist p)) in
     set_node n node ;;;
     (if truthy required_by
      then _mark_new_requirement n required_by requirement
      else ret tt) ;;;
     push_new n ;;;
     ret node) g.

(** [_mark_for_change], line 89. [node.pkg.version_key] on a node whose
    [pkg] is [None] raises [AttributeError]. *)
Definition _mark_for_change (n : string) (p : Distribution)
    (required_by : option string) (requirement : Requirement) : M Node :=
  fun g =>
    match dict_get String.eqb n (nodes g) with
    | None => (Raise AssertionError, g)
    | Some node =>
        match pkg node with
        | None => (Raise AttributeError, g)
        | Some p0 =>
            (let p' := if key_eqb (version_key p) (version_key p0)
                       then None else Some (Dist p) in
             let node' := mkNode n (pkg node) p' in
             set_node n node' ;;;
             (if truthy required_by
              then _mark_new_requirement n required_by requirement
              else ret tt) ;;;
             push_change n ;;;
             ret node') g
        end
    end.

(** [node.pkg1 == self.sentinal_delete] *)
Definition is_sentinal (o : option obj) : bool :=
  match o with
  | Some sentinal_delete => true
  | _ => false
  end.

(** [_mark_for_removal], line 114; [None] when the node was marked for
    removal before. The name is whatever the caller iterates over, so it
    can be the [None] key of an inner edge dictionary, which is no key of
    [nodes]. *)
Definition _mark_for_removal (n : option string) : M (option Node) :=
  fun g =>
    match n with
    | None => (Raise AssertionError, g)
    | Some n =>
        match dict_get String.eqb n (nodes g) with
        | None => (Raise AssertionError, g)
        | Some node =>
            if is_sentinal (pkg1 node) then (Ok None, g)
            else
              match pkg1 node with
              | Some _ => (Raise AssertionError, g)
              | None =>
                  (let node' := mkNode n (pkg node) (Some sentinal_delete) in
                   set_node n node' ;;;
                   push_remove n ;;;
                   ret (Some node')) g
              end
        end
    end.

(** The dictionary [get_marks] returns. *)
Record Marks : Type := mkMarks {
  install : list Distribution;
  change : list (Distribution * Distribution);
  remove : list Distribution
}.

(** The three lists of [get_marks], lines 146-154, in the order of
    [self.nodes.items()]; [remove] collects [node.pkg] as it is. *)
Fixpoint collect_marks (l : list (string * Node))
    : list Distribution * list (Distribution * Distribution)
      * list (option Distribution) :=
  match l with
  | [] => ([], [], [])
  | (_, node) :: l' =>
      let '(i, c, r) := collect_marks l' in
      match pkg1 node with
      | None => (i, c, r)
      | Some sentinal_delete => (i, c, pkg node :: r)
      | Some (Dist p1) =>
          match pkg node with
          | Some p0 => (i, (p0, p1) :: c, r)
          | None => (p1 :: i, c, r)
          end
      end
  end.

Fixpoint all_some (A : Type) (l : list (option A)) : option (list A) :=
  match l with
  | [] => Some []
  | Some x :: l' => option_map (cons x) (all_some l')
  | None :: _ => None
  end.

(** [get_marks], line 135. [operator.attrgetter('name')] raises
    [AttributeError] on a [None] collected from a node without [pkg]. *)
Definition get_marks (g : DepGraph) : outcome Marks :=
  let '(i, c, r) := collect_marks (nodes g) in
  match all_some r with
  | None => Raise AttributeError
  | Some r' =>
      Ok (mkMarks
            (rearrange_list (_order_new g) i name true)
            (rearrange_list (_order_change g) c
                            (fun pair => name (fst pair)) true)
            (rearrange_list (_order_remove g) r' name false))
  end.

(** ** DepGraph (lines 199-369) *)

(** [remove_package], line 242. [self.edges[name].keys()] binds a missing
    [name]; the recursive calls leave that inner dictionary alone. *)
Fixpoint remove_package (fuel : nat) (n : option string) (nodeps : bool)
    : M unit :=
  match fuel with
  | O => fun g => (OutOfFuel, g)
  | S fuel' =>
      node <- _mark_for_removal n ;;
      match node, n with
      | Some _, Some n' =>
          if nodeps then ret tt
          else
            fun g =>
              let g1 := set_edges g (edges_touch n' (edges g)) in
              let rdepends := map fst (dict_find String.eqb [] n' (edges g1)) in
              for_each (fun name1 => remove_package fuel' name1 false)
                       rdepends g1
      | _, _ => ret tt
      end
  end.

(** [node.pkg1 or node.pkg] *)
Definition pkg1_or_pkg (node : Node) : option obj :=
  match pkg1 node with
  | Some o => Some o
  | None => option_map Dist (pkg node)
  end.

(** [all([p.version in req for req in to_satisfy])] *)
Definition satisfies_all (to_satisfy : list Requirement) (p : Distribution)
    : bool :=
  forallb (version_in (version p)) to_satisfy.

(** [to_satisfy], lines 265-268 *)
Definition to_satisfy (g : DepGraph) (r : Requirement) : list Requirement :=
  match dict_get String.eqb (req_name r) (nodes g) with
  | Some _ => r :: edge_reqs (edges g) (req_name r)
  | None => [r]
  end.

(** [change], lines 287-306, for the distribution [node_pkg] the node
    holds and the candidate [p] *)
Definition needs_change (ts : list Requirement) (node_pkg p : Distribution)
    : bool :=
  if key_eqb (version_key node_pkg) (version_key p) then false
  else if key_gtb (version_key node_pkg) (version_key p)
       then negb (satisfies_all ts node_pkg)
       else true.

Section Resolver.
(** The repository collaborator, [get_available_distributions]; it may
    raise itself, as the one of the example does on an unknown name. *)
Variable get_available_distributions : string -> outcome (list Distribution).

(** Lines 262-330 of [add_requirement]: what the call does to the node of
    [req_name r] before it turns to the requirements of the package. It
    returns the node and [ret]. The warning of lines 315-325 only logs. *)
Definition add_requirement_node (r : Requirement) (parent : option string)
    : M (Node * bool) :=
  fun g =>
    let n := req_name r in
    let node := dict_get String.eqb n (nodes g) in
    let ts := to_satisfy g r in
    let g1 := match node with
              | Some _ => set_edges g (edges_touch n (edges g))
              | None => g
              end in
    (releases <- call (get_available_distributions n) ;;
     match releases with
     | [] => raise (RequirementNotFound (inl r) parent)
     | _ :: _ =>
         match filter (satisfies_all ts) releases with
         | [] => raise (RequirementNotFound (inr (req2str ts)) parent)
         | p :: _ =>
             match node with
             | Some node =>
                 match pkg1_or_pkg node with
                 | None => raise AssertionError
                 | Some sentinal_delete => raise AttributeError
                 | Some (Dist node_pkg) =>
                     if needs_change ts node_pkg p then
                       node' <- _mark_for_change n p parent r ;;
                       ret (node', match pkg1 node' with
                                   | Some _ => true
                                   | None => false
                                   end)
                     else
                       _mark_new_requirement n parent r ;;;
                       ret (node, false)
                 end
             | None =>
                 node' <- _mark_for_install n p parent r ;;
                 ret (node', true)
             end
         end
     end) g1.

(** [add_requirement], line 249 *)
Fixpoint add_requirement (fuel : nat) (r : Requirement) (nodeps : bool)
    (parent : option string) : M bool :=
  match fuel with
  | O => fun g => (OutOfFuel, g)
  | S fuel' =>
      nr <- add_requirement_node r parent ;;
      if nodeps then ret (snd nr)
      else
        match pkg1_or_pkg (fst nr) with
        | None => raise AssertionError
        | Some sentinal_delete => raise AttributeError
        | Some (Dist p) =>
            for_any (fun r' => add_requirement fuel' r' nodeps
                                               (Some (node_name (fst nr))))
                    (get_requirements p (extras r) false) (snd nr)
        end
  end.
End Resolver.

(** *** The loader, [_load_install_db] (line 343) *)

Definition triple_eqb (a b : string * string * string) : bool :=
  let '(a1, a2, a3) := a in
  let '(b1, b2, b3) := b in
  String.eqb a1 b1 && String.eqb a2 b2 && String.eqb a3 b3.

(** [extra_requirements.add(t)]; the set is kept in insertion order. *)
Definition set_add (t : string * string * string)
    (s : list (string * string * string)) : list (string * string * string) :=
  if existsb (triple_eqb t) s then s else s ++ [t].

(** Pass 1: a node for each installed distribution. *)
Definition load_pass1 (ipackages : list Distribution) : list (string * Node) :=
  fold_left (fun ns ipkg =>
               dict_set String.eqb (name ipkg)
                        (mkNode (name ipkg) (Some ipkg) None) ns)
            ipackages [].

(** Pass 2, for one requirement [r] of the node [n]. *)
Definition load_requirement (ns : list (string * Node)) (n : string)
    (acc : Edges * list (string * string * string)) (r : Requirement)
    : Edges * list (string * string * string) :=
  let rname := req_name r in
  if dict_has String.eqb rname ns then
    (edges_append rname (Some n) r (fst acc),
     fold_left (fun s e => set_add (rname, e, n) s) (extras r) (snd acc))
  else acc.

Definition load_pass2 (ns : list (string * Node))
    : Edges * list (string * string * string) :=
  fold_left (fun acc nn =>
               match pkg (snd nn) with
               | Some ipkg =>
                   fold_left (load_requirement ns (fst nn))
                             (get_requirements ipkg [] false) acc
               | None => acc
               end)
            ns ([], []).

(** Pass 3, for one deferred triple: an edge for each requirement the
    extra alone contributes, whether or not its name is a node. *)
Definition load_extra (ns : list (string * Node)) (e : Edges)
    (t : string * string * string) : Edges :=
  let '(n1, ex, n2) := t in
  match dict_get String.eqb n1 ns with
  | Some (mkNode _ (Some p) _) =>
      fold_left (fun e' r => edges_append (req_name r) (Some n2) r e')
                (get_requirements p [ex] true) e
  | _ => e
  end.

Definition _load_install_db (ipackages : list Distribution) : DepGraph :=
  let ns := load_pass1 ipackages in
  let '(e2, extra_requirements) := load_pass2 ns in
  let e3 := fold_left (load_extra ns) extra_requirements e2 in
  mkDepGraph ns empty_Order empty_Order empty_Order e3.

(** [DepGraph.__init__] followed by calls of the two public methods that
    returned. *)
Inductive reachable (installed : list Distribution)
    (available : string -> outcome (list Distribution)) : DepGraph -> Prop :=
| reach_init : reachable installed available (_load_install_db installed)
| reach_add : forall g fuel r nodeps b g',
    reachable installed available g ->
    add_requirement available fuel r nodeps None g = (Ok b, g') ->
    reachable installed available g'
| reach_remove : forall g fuel n nodeps g',
    reachable installed available g ->
    remove_package fuel (Some n) nodeps g = (Ok tt, g') ->
    reachable installed available g'.

(** ** Properties of a graph *)

(** Every edge [edges[a][b]] joins two keys of [nodes]. *)
Definition edges_closed (g : DepGraph) : Prop :=
  forall a inner b rl,
    dict_get String.eqb a (edges g) = Some inner ->
    dict_get opt_eqb b inner = Some rl ->
    has_package g a = true /\
    exists n, b = Some n /\ has_package g n = true.

(** No requirement is recorded for a name that has no node. *)
Definition no_orphan_edges (g : DepGraph) (n : string) : Prop :=
  has_package g n = false -> edge_reqs (edges g) n = [].

(** The distribution a node stands for once the plan is applied: the
    pending one if there is one, else the installed one; none for a node
    marked for removal. *)
Definition effective (node : Node) : option Distribution :=
  match pkg1 node with
  | Some (Dist p) => Some p
  | Some sentinal_delete => None
  | None => pkg node
  end.

(** The node of [req_name r] exists and its effective distribution
    satisfies [r] and every requirement recorded in [edges[req_name r]]. *)
Definition requirement_met (g : DepGraph) (r : Requirement) : Prop :=
  exists node p,
    dict_get String.eqb (req_name r) (nodes g) = Some node /\
    effective node = Some p /\
    version_in (version p) r = true /\
    forall req, In req (edge_reqs (edges g) (req_name r)) ->
                version_in (version p) req = true.

(** The three order sequences of a graph. *)
Definition orders (g : DepGraph) : _Order * _Order * _Order :=
  (_order_new g, _order_change g, _order_remove g).

(** What lines 262-330 do to the graph when they do not raise, for the
    release [p] they picked: a new node, an edge only, or a change. *)
Inductive node_effect (r : Requirement) (parent : option string)
    (p : Distribution) (g : DepGraph) : Node * bool -> DepGraph -> Prop :=
| effect_install : forall ord,
    dict_get String.eqb (req_name r) (nodes g) = None ->
    push (req_name r) (_order_new g) = (Ok tt, ord) ->
    let node' := mkNode (req_name r) None (Some (Dist p)) in
    node_effect r parent p g (node', true)
      (mkDepGraph (dict_set String.eqb (req_name r) node' (nodes g))
                  ord (_order_change g) (_order_remove g)
                  (if truthy parent
                   then edges_append (req_name r) parent r (edges g)
                   else edges g))
| effect_keep : forall node node_pkg,
    dict_get String.eqb (req_name r) (nodes g) = Some node ->
    pkg1_or_pkg node = Some (Dist node_pkg) ->
    needs_change (to_satisfy g r) node_pkg p = false ->
    node_effect r parent p g (node, false)
      (set_edges g (edges_append (req_name r) parent r
                                 (edges_touch (req_name r) (edges g))))
| effect_change : forall node node_pkg p0 ord,
    dict_get String.eqb (req_name r) (nodes g) = Some node ->
    pkg1_or_pkg node = Some (Dist node_pkg) ->
    needs_change (to_satisfy g r) node_pkg p = true ->
    pkg node = Some p0 ->
    push (req_name r) (_order_change g) = (Ok tt, ord) ->
    let node' := mkNode (req_name r) (Some p0)
                   (if key_eqb (version_key p) (version_key p0)
                    then None else Some (Dist p)) in
    node_effect r parent p g
      (node', match pkg1 node' with Some _ => true | None => false end)
      (mkDepGraph (dict_set String.eqb (req_name r) node' (nodes g))
                  (_order_new g) ord (_order_remove g)
                  (if truthy parent
                   then edges_append (req_name r) parent r
                                     (edges_touch (req_name r) (edges g))
                   else edges_touch (req_name r) (edges g))).

(** The node of [n] stands for a distribution that satisfies [r] and the
    requirements recorded on [n], and a later call cannot move it away
    from [r]: either [r] is itself recorded, or the node cannot be changed
    again (its name was pushed on [_order_change], or it has no installed
    distribution). *)
Definition kept_satisfied (n : string) (r : Requirement) (g : DepGraph)
    : Prop :=
  exists node q,
    dict_get String.eqb n (nodes g) = Some node /\
    pkg1_or_pkg node = Some (Dist q) /\
    version_in (version q) r = true /\
    (forall req, In req (edge_reqs (edges g) n) ->
                 version_in (version q) req = true) /\
    (mem n (_elements_set (_order_change g)) = true \/
     pkg node = None \/
     In r (edge_reqs (edges g) n)).

(** ** Distributions given by their requirement table *)

(** [Requirement.parse] of a name and its clauses, without extras. *)
Definition req (n : string) (cl : list (op * string)) : Requirement :=
  mkRequirement n cl [].

Fixpoint dedup (l : list string) : list string :=
  match l with
  | [] => []
  | x :: l' => x :: filter (fun y => negb (String.eqb x y)) (dedup l')
  end.

(** A distribution whose requirements are listed per extra, [''] being the
    default set: [get_requirements] yields the requirements of the given
    extras, after the default ones unless they are excluded. *)
Definition table_distribution (n v : string)
    (install_requires : list (string * list Requirement)) : Distribution :=
  mkDistribution n v
    (fun with_extras exclude_default =>
       flat_map (fun extra => dict_find String.eqb [] extra install_requires)
                (if exclude_default then dedup with_extras
                 else dedup ("" :: with_extras))).

(** ** The example of the module (lines 417-476) *)

Module ExampleDepGraph.

(** The class [Distribution] of the example, a table distribution; the
    class itself has no [exclude_default] and raises on an extra that is
    no key of [install_requires], and the example has no extras. *)
Definition Distribution := table_distribution.

Definition fabric_0_9_1 :=
  Distribution "fabric" "0.9.1" [("", [req "pycrypto" []])].
Definition fabric_0_9_2 :=
  Distribution "fabric" "0.9.2"
    [("", [req "pycrypto" [(OpLe, "2.1")]; req "paramiko" []])].
Definition pycrypto_2_1 := Distribution "pycrypto" "2.1" [("", [])].
Definition pycrypto_2_3 := Distribution "pycrypto" "2.3" [("", [])].
Definition virtualenv_1_4_0 := Distribution "virtualenv" "1.4.0" [("", [])].
Definition paramiko_0_9 :=
  Distribution "paramiko" "0.9" [("", [req "pycrypto" []])].

Definition get_installed_distributions :=
  [fabric_0_9_1; pycrypto_2_1; virtualenv_1_4_0].

(** [NotImpementedError] is no name of Python: an unknown distribution
    ends in [NameError]. *)
Definition get_available_distributions (n : string) :=
  if String.eqb n "fabric" then Ok [fabric_0_9_2; fabric_0_9_1]
  else if String.eqb n "paramiko" then Ok [paramiko_0_9]
  else if String.eqb n "pycrypto" then Ok [pycrypto_2_3; pycrypto_2_1]
  else Raise NameError.

(** [graph = ExampleDepGraph()] *)
Definition graph : DepGraph := _load_install_db get_installed_distributions.


(** [graph.add_requirement(r)] *)
Definition add_requirement (fuel : nat) (r : Requirement)
    : M bool :=
  add_requirement get_available_distributions fuel r false None.

(** The graph after [graph.add_requirement("pycrypto>=2.3")]. *)
Definition graph_pycrypto_ge : DepGraph :=
  snd (add_requirement 1 (req "pycrypto" [(OpGe, "2.3")]) graph).

(** The graph after [graph.add_requirement("pycrypto==2.1")]. *)
Definition graph_pycrypto_eq : DepGraph :=
  snd (add_requirement 1 (req "pycrypto" [(OpEq, "2.1")]) graph).

End ExampleDepGraph.

(** ** An installed database with an extra whose requirement is missing

    fabric-0.9.1 requires paramiko[fast]; the extra [fast] of paramiko-0.9
    requires pycrypto<=2.1, and pycrypto is not installed. *)
Module MissingExtra.

Definition fabric_0_9_1 :=
  table_distribution "fabric" "0.9.1"
    [("", [mkRequirement "paramiko" [] ["fast"]])].
Definition paramiko_0_9 :=
  table_distribution "paramiko" "0.9"
    [("", []); ("fast", [req "pycrypto" [(OpLe, "2.1")]])].

Definition get_installed_distributions := [fabric_0_9_1; paramiko_0_9].

Definition get_available_distributions (n : string) :=
  if String.eqb n "pycrypto"
  then Ok [ExampleDepGraph.pycrypto_2_3; ExampleDepGraph.pycrypto_2_1]
  else Ok [].

Definition graph : DepGraph := _load_install_db get_installed_distributions.

End MissingExtra.

(** ** A catalog where an extra of a later release brings a new package

    app-1.0 is installed and requires lib[tls] and tool; lib-3.0 is
    installed. tool-1.0 requires lib<3.0, and the extra [tls] of lib-2.0
    requires ssl, which lib-3.0 does without. *)
Module LateExtra.

Definition app_1_0 :=
  table_distribution "app" "1.0"
    [("", [mkRequirement "lib" [] ["tls"]; req "tool" []])].
Definition lib_3_0 := table_distribution "lib" "3.0" [("", []); ("tls", [])].
Definition lib_2_0 :=
  table_distribution "lib" "2.0" [("", []); ("tls", [req "ssl" []])].
Definition tool_1_0 :=
  table_distribution "tool" "1.0" [("", [req "lib" [(OpLt, "3.0")]])].
Definition ssl_1_0 := table_distribution "ssl" "1.0" [("", [])].

Definition get_installed_distributions := [app_1_0; lib_3_0].

Definition get_available_distributions (n : string) :=
  if String.eqb n "app" then Ok [app_1_0]
  else if String.eqb n "lib" then Ok [lib_3_0; lib_2_0]
  else if String.eqb n "tool" then Ok [tool_1_0]
  else if String.eqb n "ssl" then Ok [ssl_1_0]
  else Ok [].

Definition graph : DepGraph := _load_install_db get_installed_distributions.

(** The graph after [graph.add_requirement("app")]. *)
Definition graph_app : DepGraph :=
  snd (add_requirement get_available_distributions 3 (req "app" [])
                       false None graph).

End LateExtra.

(** ** A database without pycrypto, for the catalog of the example *)
Module Fresh.

Definition get_installed_distributions := [ExampleDepGraph.virtualenv_1_4_0].

Definition graph : DepGraph := _load_install_db get_installed_distributions.

(** The graph after [graph.add_requirement("pycrypto<=2.1")]. *)
Definition graph_pycrypto_le : DepGraph :=
  snd (add_requirement ExampleDepGraph.get_available_distributions 1
                       (req "pycrypto" [(OpLe, "2.1")]) false None graph).

End Fresh.

(** ** Further properties of the order sequence and of a graph *)

(** The list of an order sequence has no duplicates and lies within its
    set. *)
Definition order_wf (o : _Order) : Prop :=
  NoDup (_elements o) /\
  forall x, In x (_elements o) -> mem x (_elements_set o) = true.

(** [for e in l: o.push(e)], stopping at the first exception. *)
Fixpoint push_all (l : list string) (o : _Order) : outcome unit * _Order :=
  match l with
  | [] => (Ok tt, o)
  | e :: l' =>
      match push e o with
      | (Ok _, o') => push_all l' o'
      | r => r
      end
  end.

(** An entry [(e, i)] of the dictionary [indices] builds from the pair
    [(i, e)] that [enumerate] yields. *)
Definition swap_index (ie : N * string) : string * N := (snd ie, fst ie).

(** ** What the two public methods can do to a graph *)

(** The moves of [add_requirement]: it binds a name in [edges], appends a
    requirement to the edges of a node, creates a node pending for install
    and pushes its name on [_order_new], or gives a node that is not marked
    for removal a new [pkg1] and pushes its name on [_order_change]. The
    order sequences are as [push] leaves them, whether it raises or not. *)
Inductive add_step : DepGraph -> DepGraph -> Prop :=
| step_touch : forall g n,
    add_step g (set_edges g (edges_touch n (edges g)))
| step_edge : forall g n b r,
    has_package g n = true ->
    add_step g (set_edges g (edges_append n b r (edges g)))
| step_install : forall g n p,
    dict_get String.eqb n (nodes g) = None ->
    add_step g
      (mkDepGraph
         (dict_set String.eqb n (mkNode n None (Some (Dist p))) (nodes g))
         (snd (push n (_order_new g))) (_order_change g) (_order_remove g)
         (edges g))
| step_change : forall g n node p0 p,
    dict_get String.eqb n (nodes g) = Some node ->
    pkg node = Some p0 ->
    is_sentinal (pkg1 node) = false ->
    add_step g
      (mkDepGraph
         (dict_set String.eqb n
            (mkNode n (Some p0)
                    (if key_eqb (version_key p) (version_key p0)
                     then None else Some (Dist p)))
            (nodes g))
         (_order_new g) (snd (push n (_order_change g))) (_order_remove g)
         (edges g)).

(** The moves of [remove_package]: it binds a name in [edges], or marks a
    node without pending action for removal and pushes its name on
    [_order_remove]. *)
Inductive remove_step : DepGraph -> DepGraph -> Prop :=
| rstep_touch : forall g n,
    remove_step g (set_edges g (edges_touch n (edges g)))
| rstep_remove : forall g n node,
    dict_get String.eqb n (nodes g) = Some node ->
    pkg1 node = None ->
    remove_step g
      (mkDepGraph
         (dict_set String.eqb n (mkNode n (pkg node) (Some sentinal_delete))
                   (nodes g))
         (_order_new g) (_order_change g) (snd (push n (_order_remove g)))
         (edges g)).

Definition add_steps : DepGraph -> DepGraph -> Prop :=
  clos_refl_trans DepGraph add_step.

Definition remove_steps : DepGraph -> DepGraph -> Prop :=
  clos_refl_trans DepGraph remove_step.

(** Every run of [m], however it ends, relates the graph before to the
    graph after. *)
Definition keeps (R : DepGraph -> DepGraph -> Prop) (A : Type) (m : M A)
    : Prop :=
  forall g o g', m g = (o, g') -> R g g'.

(** From [g] to [g'] no node is lost, no installed distribution is
    replaced, no node is marked for removal or has its mark taken away, the
    removal order is untouched and no recorded requirement is retracted. *)
Definition add_grows (g g' : DepGraph) : Prop :=
  (forall n node,
     dict_get String.eqb n (nodes g) = Some node ->
     exists node',
       dict_get String.eqb n (nodes g') = Some node' /\
       pkg node' = pkg node /\
       is_sentinal (pkg1 node') = is_sentinal (pkg1 node)) /\
  (forall n node',
     dict_get String.eqb n (nodes g) = None ->
     dict_get String.eqb n (nodes g') = Some node' ->
     is_sentinal (pkg1 node') = false) /\
  _order_remove g' = _order_remove g /\
  (forall n req,
     In req (edge_reqs (edges g) n) -> In req (edge_reqs (edges g') n)).

(** From [g] to [g'] the nodes keep their names and installed
    distributions, a [pkg1] either stays or goes from [None] to
    [sentinal_delete], and nothing else changes but the removal order and
    the names bound in [edges]. *)
Definition remove_marks (g g' : DepGraph) : Prop :=
  (forall n node,
     dict_get String.eqb n (nodes g) = Some node ->
     exists node',
       dict_get String.eqb n (nodes g') = Some node' /\
       pkg node' = pkg node /\
       (pkg1 node' = pkg1 node \/
        (pkg1 node = None /\ pkg1 node' = Some sentinal_delete))) /\
  (forall n,
     dict_get String.eqb n (nodes g) = None ->
     dict_get String.eqb n (nodes g') = None) /\
  _order_new g' = _order_new g /\
  _order_change g' = _order_change g /\
  (forall n, edge_reqs (edges g') n = edge_reqs (edges g) n).

(** ** Legal graphs *)

(** The node kept under [n] bears that name and is in one of the four
    states of [MarkMixin.__init__]: installed, pending for install (its
    name was pushed on [_order_new]), pending for a change to another
    version (its name was pushed on [_order_change]), or marked for
    removal (its name was pushed on [_order_remove]). *)
Definition node_legal (g : DepGraph) (n : string) (node : Node) : Prop :=
  node_name node = n /\
  (pkg node = None ->
   (exists p, pkg1 node = Some (Dist p)) /\
   mem n (_elements_set (_order_new g)) = true) /\
  (forall p0 p,
     pkg node = Some p0 -> pkg1 node = Some (Dist p) ->
     key_eqb (version_key p) (version_key p0) = false /\
     mem n (_elements_set (_order_change g)) = true) /\
  (pkg1 node = Some sentinal_delete ->
   mem n (_elements_set (_order_remove g)) = true).

(** Each name is the key of one node at most, every node is legal, every
    name pushed on an order sequence is the key of a node, and the three
    sequences are well formed. *)
Definition graph_legal (g : DepGraph) : Prop :=
  NoDup (map fst (nodes g)) /\
  (forall n node,
     dict_get String.eqb n (nodes g) = Some node -> node_legal g n node) /\
  (forall x,
     mem x (_elements_set (_order_new g)) = true \/
     mem x (_elements_set (_order_change g)) = true \/
     mem x (_elements_set (_order_remove g)) = true ->
     has_package g x = true) /\
  order_wf (_order_new g) /\
  order_wf (_order_change g) /\
  order_wf (_order_remove g).

(** The node the loader makes for an installed distribution. *)
Definition installed_node (p : Distribution) : string * Node :=
  (name p, mkNode (name p) (Some p) None).

(** The graph of the example after [graph.add_requirement("fabric")]. *)
Definition graph_fabric : DepGraph :=
  snd (ExampleDepGraph.add_requirement 3 (req "fabric" [])
                                       ExampleDepGraph.graph).

(** The node of [n] is marked for removal. *)
Definition is_removed (g : DepGraph) (n : string) : Prop :=
  exists node,
    dict_get String.eqb n (nodes g) = Some node /\
    pkg1 node = Some sentinal_delete.

(** Requirements are recorded only for names that have a node. *)
Definition edges_owned (g : DepGraph) : Prop :=
  forall n, no_orphan_edges g n.

(** No default requirement of an installed distribution asks for an
    extra. *)
Definition no_extras (ipackages : list Distribution) : Prop :=
  forall p r,
    In p ipackages -> In r (get_requirements p [] false) -> extras r = [].

(** Every edge of [e] joins two keys of [ns], the dependent being a
    name. *)
Definition closed_in (ns : list (string * Node)) (e : Edges) : Prop :=
  forall a inner b rl,
    dict_get String.eqb a e = Some inner ->
    dict_get opt_eqb b inner = Some rl ->
    dict_has String.eqb a ns = true /\
    exists m, b = Some m /\ dict_has String.eqb m ns = true.

(** ** How [add_requirement] comes to raise [RequirementNotFound] *)

(** Lines 270-279 for the requirement [r] on the graph [g], with
    [releases] the answer of [get_available_distributions]: the answer is
    empty and the error carries [r]; or none of its releases satisfies
    every requirement of [to_satisfy] and the error carries the joined
    constraints. Both carry the parent. *)
Definition lookup_fails (releases : list Distribution) (g : DepGraph)
    (r : Requirement) (parent : option string)
    (x : Requirement + string) (rb : option string) : Prop :=
  (releases = [] /\ x = inl r /\ rb = parent) \/
  (releases <> [] /\
   filter (satisfies_all (to_satisfy g r)) releases = [] /\
   x = inr (req2str (to_satisfy g r)) /\ rb = parent).

(** The call [add_requirement(r, nodeps, parent)] on [g] ends in
    [RequirementNotFound(x, rb)]: its own lookup fails; or, without
    [nodeps], lines 262-330 return, the calls for the requirements [done]
    of the node's distribution return, and the call for the next one,
    [r'], ends in that error. *)
Inductive raises_not_found
    (available : string -> outcome (list Distribution))
    : nat -> Requirement -> bool -> option string -> DepGraph ->
      Requirement + string -> option string -> Prop :=
| raised_here : forall fuel r nodeps parent g releases x rb,
    available (req_name r) = Ok releases ->
    lookup_fails releases g r parent x rb ->
    raises_not_found available (S fuel) r nodeps parent g x rb
| raised_below : forall fuel r parent g node ret0 g1 p done r' rest ret1 g'
                        x rb,
    add_requirement_node available r parent g = (Ok (node, ret0), g1) ->
    pkg1_or_pkg node = Some (Dist p) ->
    get_requirements p (extras r) false = done ++ r' :: rest ->
    for_any (fun r0 => add_requirement available fuel r0 false
                                       (Some (node_name node)))
            done ret0 g1 = (Ok ret1, g') ->
    raises_not_found available fuel r' false (Some (node_name node)) g' x rb ->
    raises_not_found available (S fuel) r false parent g x rb.

(** ** A catalog whose only release of a requirement is too old

    web-1.0 requires json>=2.0, the catalog has json-1.0 only, and nothing
    is installed. *)
Module Unmet.

Definition web_1_0 :=
  table_distribution "web" "1.0" [("", [req "json" [(OpGe, "2.0")]])].
Definition json_1_0 := table_distribution "json" "1.0" [("", [])].

Definition get_installed_distributions : list Distribution := [].

Definition get_available_distributions (n : string) :=
  if String.eqb n "web" then Ok [web_1_0]
  else if String.eqb n "json" then Ok [json_1_0]
  else Ok [].

Definition graph : DepGraph := _load_install_db get_installed_distributions.

End Unmet.

(** ** Catalogs without extras and without cycles *)









(** ** A catalog where a later requirement changes a package

    The catalog of [LateExtra] without the extra: app-1.0 is installed and
    requires lib and tool; lib-3.0 is installed. tool-1.0 requires
    lib<3.0, and lib-2.0 requires ssl, which lib-3.0 does without. *)
Module LateChange.

Definition app_1_0 :=
  table_distribution "app" "1.0" [("", [req "lib" []; req "tool" []])].
Definition lib_3_0 := table_distribution "lib" "3.0" [("", [])].
Definition lib_2_0 := table_distribution "lib" "2.0" [("", [req "ssl" []])].
Definition tool_1_0 :=
  table_distribution "tool" "1.0" [("", [req "lib" [(OpLt, "3.0")]])].
Definition ssl_1_0 := table_distribution "ssl" "1.0" [("", [])].

Definition get_installed_distributions := [app_1_0; lib_3_0].

Definition get_available_distributions (n : string) :=
  if String.eqb n "app" then Ok [app_1_0]
  else if String.eqb n "lib" then Ok [lib_3_0; lib_2_0]
  else if String.eqb n "tool" then Ok [tool_1_0]
  else if String.eqb n "ssl" then Ok [ssl_1_0]
  else Ok [].

Definition graph : DepGraph := _load_install_db get_installed_distributions.

(** The graph after [graph.add_requirement("app")]. *)
Definition graph_app : DepGraph :=
  snd (add_requirement get_available_distributions 4 (req "app" [])
                       false None graph).

(** app requires tool and lib, tool requires lib, lib requires ssl. *)
Definition rank (n : string) : nat :=
  if String.eqb n "app" then 3
  else if String.eqb n "tool" then 2
  else if String.eqb n "lib" then 1
  else 0.

End LateChange.

(** * Properties *)

Unset Implicit Arguments.

(** ** Fuel *)

Lemma add_requirement_S :
  forall available fuel r nodeps parent,
    add_requirement available (S fuel) r nodeps parent =
    (nr <- add_requirement_node available r parent ;;
     if nodeps then ret (snd nr)
     else
       match pkg1_or_pkg (fst nr) with
       | None => raise AssertionError
       | Some sentinal_delete => raise AttributeError
       | Some (Dist p) =>
           for_any (fun r' => add_requirement available fuel r' nodeps
                                              (Some (node_name (fst nr))))
                   (get_requirements p (extras r) false) (snd nr)
       end).
Proof. reflexivity. Qed.

Lemma for_any_more :
  forall (A : Type) (f f' : A -> M bool),
    (forall x g o g', f x g = (o, g') -> o <> OutOfFuel -> f' x g = (o, g')) ->
    forall l ret0 g o g',
      for_any f l ret0 g = (o, g') -> o <> OutOfFuel ->
      for_any f' l ret0 g = (o, g').
Proof.
  intros A f f' Hf l; induction l as [|x l IH]; intros ret0 g o g' H Ho.
  - exact H.
  - simpl in *. unfold bind in *.
    destruct (f x g) as [[b|e|] g1] eqn:E.
    + rewrite (Hf _ _ _ _ E) by discriminate. now apply IH.
    + rewrite (Hf _ _ _ _ E) by discriminate. exact H.
    + inversion H; subst. now elim Ho.
Qed.

Lemma for_each_more :
  forall (A : Type) (f f' : A -> M unit),
    (forall x g o g', f x g = (o, g') -> o <> OutOfFuel -> f' x g = (o, g')) ->
    forall l g o g',
      for_each f l g = (o, g') -> o <> OutOfFuel ->
      for_each f' l g = (o, g').
Proof.
  intros A f f' Hf l; induction l as [|x l IH]; intros g o g' H Ho.
  - exact H.
  - simpl in *. unfold bind in *.
    destruct (f x g) as [[b|e|] g1] eqn:E.
    + rewrite (Hf _ _ _ _ E) by discriminate. now apply IH.
    + rewrite (Hf _ _ _ _ E) by discriminate. exact H.
    + inversion H; subst. now elim Ho.
Qed.

(** A call that ended with some fuel ends the same way with more. *)
Lemma add_requirement_fuel_S :
  forall available fuel r nodeps parent g o g',
    add_requirement available fuel r nodeps parent g = (o, g') ->
    o <> OutOfFuel ->
    add_requirement available (S fuel) r nodeps parent g = (o, g').
Proof.
  intros available fuel; induction fuel as [|fuel IH];
    intros r nodeps parent g o g' H Ho.
  - simpl in H. inversion H; subst. now elim Ho.
  - rewrite add_requirement_S in H. rewrite add_requirement_S.
    unfold bind in *.
    destruct (add_requirement_node available r parent g) as [[nr|e|] g1];
      try exact H.
    destruct nodeps; try exact H.
    destruct (pkg1_or_pkg (fst nr)) as [[p|]|]; try exact H.
    eapply for_any_more; [|exact H|exact Ho].
    intros; now apply IH.
Qed.

Lemma add_requirement_fuel_plus :
  forall available k fuel r nodeps parent g,
    fst (add_requirement available fuel r nodeps parent g) <> OutOfFuel ->
    add_requirement available (k + fuel) r nodeps parent g =
    add_requirement available fuel r nodeps parent g.
Proof.
  intros available k; induction k as [|k IH]; intros; [reflexivity|].
  simpl. specialize (IH _ _ _ _ _ H).
  destruct (add_requirement available fuel r nodeps parent g) as [o g'] eqn:E.
  apply add_requirement_fuel_S; assumption.
Qed.

Lemma remove_package_fuel_S :
  forall fuel n nodeps g o g',
    remove_package fuel n nodeps g = (o, g') ->
    o <> OutOfFuel ->
    remove_package (S fuel) n nodeps g = (o, g').
Proof.
  induction fuel as [|fuel IH]; intros n nodeps g o g' H Ho.
  - simpl in H. inversion H; subst. now elim Ho.
  - change (remove_package (S (S fuel)) n nodeps g)
      with (bind (_mark_for_removal n)
              (fun node =>
                 match node, n with
                 | Some _, Some n' =>
                     if nodeps then ret tt
                     else
                       fun g =>
                         let g1 := set_edges g (edges_touch n' (edges g)) in
                         let rdepends :=
                           map fst (dict_find String.eqb [] n' (edges g1)) in
                         for_each
                           (fun name1 => remove_package (S fuel) name1 false)
                           rdepends g1
                 | _, _ => ret tt
                 end) g).
    simpl in H. unfold bind in *.
    destruct (_mark_for_removal n g) as [[node|e|] g1]; try exact H.
    destruct node as [node|]; try exact H.
    destruct n as [n'|]; try exact H.
    destruct nodeps; try exact H.
    cbv zeta in *.
    eapply for_each_more; [|exact H|exact Ho].
    intros; now apply IH.
Qed.

Lemma remove_package_fuel_plus :
  forall k fuel n nodeps g,
    fst (remove_package fuel n nodeps g) <> OutOfFuel ->
    remove_package (k + fuel) n nodeps g = remove_package fuel n nodeps g.
Proof.
  induction k as [|k IH]; intros; [reflexivity|].
  simpl plus. specialize (IH _ _ _ _ H).
  destruct (remove_package fuel n nodeps g) as [o g'] eqn:E.
  apply remove_package_fuel_S; assumption.
Qed.

(** ** The scenarios of the example *)

Section Scenarios.
Import ExampleDepGraph.

(** C8: on the example, [add_requirement("fabric")] returns [True]; the
    plan installs paramiko-0.9, changes fabric-0.9.1 to fabric-0.9.2 and
    removes nothing, and pycrypto stays at the installed 2.1, which
    satisfies the [pycrypto<=2.1] of fabric-0.9.2. *)
Theorem add_fabric_plan :
  forall fuel,
    let res :=
      ExampleDepGraph.add_requirement (fuel + 3) (req "fabric" []) graph in
    fst res = Ok true /\
    get_marks (snd res) =
      Ok (mkMarks [paramiko_0_9] [(fabric_0_9_1, fabric_0_9_2)] []) /\
    dict_get String.eqb "pycrypto" (nodes (snd res)) =
      Some (mkNode "pycrypto" (Some pycrypto_2_1) None) /\
    version_in (version pycrypto_2_1) (req "pycrypto" [(OpLe, "2.1")]) = true.
Proof.
  intros fuel res. subst res. unfold ExampleDepGraph.add_requirement.
  rewrite add_requirement_fuel_plus by (vm_compute; discriminate).
  repeat split; vm_compute; reflexivity.
Qed.

(** C1, as stated, fails: after [add_requirement("pycrypto>=2.3")] the
    call [add_requirement("fabric")] does not end in
    [RequirementNotFound]. It reaches [_mark_for_change] for pycrypto,
    whose [push] on [_order_change] raises [KeyError]. *)
Lemma add_fabric_after_pycrypto_not_RequirementNotFound :
  fst (ExampleDepGraph.add_requirement 2 (req "fabric" [])
                                       graph_pycrypto_ge)
    = Raise KeyError /\
  ~ (exists x rb,
       fst (ExampleDepGraph.add_requirement 2 (req "fabric" [])
                                            graph_pycrypto_ge)
       = Raise (RequirementNotFound x rb)).
Proof.
  assert (E : fst (ExampleDepGraph.add_requirement 2 (req "fabric" [])
                     graph_pycrypto_ge) = Raise KeyError)
    by (vm_compute; reflexivity).
  split; [exact E|]. intros [x [rb H]]. rewrite E in H. discriminate.
Qed.

(** C1, amended: on the example, [add_requirement("pycrypto>=2.3")]
    returns [True] and the plan is the single change pycrypto-2.1 to
    pycrypto-2.3. The requirement came without a parent and is not
    recorded in [edges]: in a following [add_requirement("fabric")] the
    constraints on pycrypto are [pycrypto<=2.1] and the [pycrypto] of
    fabric-0.9.1, which pycrypto-2.1 satisfies, and the call does not end
    in [RequirementNotFound]. *)
Theorem add_pycrypto_then_fabric :
  forall fuel,
    let res := ExampleDepGraph.add_requirement (fuel + 1)
                 (req "pycrypto" [(OpGe, "2.3")]) graph in
    fst res = Ok true /\
    snd res = graph_pycrypto_ge /\
    get_marks (snd res) = Ok (mkMarks [] [(pycrypto_2_1, pycrypto_2_3)] []) /\
    edge_reqs (edges (snd res)) "pycrypto" = [req "pycrypto" []] /\
    to_satisfy (snd res) (req "pycrypto" [(OpLe, "2.1")])
      = [req "pycrypto" [(OpLe, "2.1")]; req "pycrypto" []] /\
    filter (satisfies_all
              (to_satisfy (snd res) (req "pycrypto" [(OpLe, "2.1")])))
           [pycrypto_2_3; pycrypto_2_1] = [pycrypto_2_1] /\
    forall x rb,
      fst (ExampleDepGraph.add_requirement (fuel + 2) (req "fabric" [])
                                           (snd res))
      <> Raise (RequirementNotFound x rb).
Proof.
  intros fuel res. subst res. unfold ExampleDepGraph.add_requirement.
  rewrite !add_requirement_fuel_plus by (vm_compute; discriminate).
  repeat split; try (vm_compute; reflexivity).
  intros x rb H. vm_compute in H. discriminate.
Qed.

(** C2: on the example, [remove_package("pycrypto")] cascades to fabric,
    and [get_marks] lists pycrypto-2.1, the dependency, before
    fabric-0.9.1, which depends on it. *)
Theorem remove_pycrypto_plan :
  forall fuel,
    let res := remove_package (fuel + 2) (Some "pycrypto") false graph in
    fst res = Ok tt /\
    _elements (_order_remove (snd res)) = ["pycrypto"; "fabric"] /\
    get_marks (snd res) = Ok (mkMarks [] [] [pycrypto_2_1; fabric_0_9_1]).
Proof.
  intros fuel res. subst res.
  rewrite remove_package_fuel_plus by (vm_compute; discriminate).
  repeat split; vm_compute; reflexivity.
Qed.

(** C4: a graph reached from the example by
    [add_requirement("pycrypto==2.1")] has the edge
    [edges["pycrypto"][None]], whose dependent is no key of [nodes];
    [remove_package("pycrypto")] then fails its assertion on [None]. *)
Theorem edge_to_no_parent :
  reachable get_installed_distributions get_available_distributions
            graph_pycrypto_eq /\
  ~ edges_closed graph_pycrypto_eq /\
  (exists inner,
     dict_get String.eqb "pycrypto" (edges graph_pycrypto_eq) = Some inner /\
     dict_get opt_eqb None inner = Some [req "pycrypto" [(OpEq, "2.1")]]) /\
  forall fuel,
    fst (remove_package (fuel + 2) (Some "pycrypto") false graph_pycrypto_eq)
    = Raise AssertionError.
Proof.
  assert (Hin : exists inner,
             dict_get String.eqb "pycrypto" (edges graph_pycrypto_eq)
             = Some inner /\
             dict_get opt_eqb None inner
             = Some [req "pycrypto" [(OpEq, "2.1")]])
    by (eexists; split; vm_compute; reflexivity).
  split; [|split; [|split]].
  - apply reach_add with (g := graph) (fuel := 1) (nodeps := false)
                         (r := req "pycrypto" [(OpEq, "2.1")]) (b := false);
      [apply reach_init|].
    vm_compute. reflexivity.
  - intros H. destruct Hin as [inner [H1 H2]].
    destruct (H _ _ _ _ H1 H2) as [_ [n [Hn _]]]. discriminate.
  - exact Hin.
  - intros fuel.
    rewrite remove_package_fuel_plus by (vm_compute; discriminate).
    vm_compute. reflexivity.
Qed.
End Scenarios.

(** The loader records an edge on a name without a node: pass 3 has no
    check like the [has_package] of pass 2. *)
Lemma loader_edge_to_missing_node :
  reachable MissingExtra.get_installed_distributions
            MissingExtra.get_available_distributions MissingExtra.graph /\
  has_package MissingExtra.graph "pycrypto" = false /\
  ~ edges_closed MissingExtra.graph.
Proof.
  split; [apply reach_init|]. split; [vm_compute; reflexivity|].
  intros H.
  assert (Hin : exists inner rl,
             dict_get String.eqb "pycrypto" (edges MissingExtra.graph)
             = Some inner /\
             dict_get opt_eqb (Some "fabric") inner = Some rl)
    by (eexists; eexists; split; vm_compute; reflexivity).
  destruct Hin as (inner & rl & H1 & H2).
  destruct (H _ _ _ _ H1 H2) as [Hp _]. vm_compute in Hp. discriminate.
Qed.

(** ** The order sequence *)

(** An element that was not pushed before goes last. *)
Lemma push_fresh :
  forall e o,
    mem e (_elements_set o) = false ->
    push e o = (Ok tt, mk_Order (_elements o ++ [e]) (_elements_set o ++ [e])).
Proof. intros e o H. unfold push. now rewrite H. Qed.

(** An element that was pushed before is never moved: the call raises. *)
Lemma push_again :
  forall e o,
    mem e (_elements_set o) = true ->
    fst (push e o) = Raise KeyError \/ fst (push e o) = Raise ValueError.
Proof.
  intros e o H. unfold push. rewrite H.
  destruct (mem e (_elements o)); [left|right]; reflexivity.
Qed.

(** C5: a second [push] of the same element does not complete: it raises
    [KeyError], and leaves the element out of [_elements] while
    [_elements_set] still holds it. *)
Theorem push_twice_raises :
  push "a" empty_Order = (Ok tt, mk_Order ["a"] ["a"]) /\
  push "a" (mk_Order ["a"] ["a"]) = (Raise KeyError, mk_Order [] ["a"]) /\
  push "a" (mk_Order ["a"; "b"] ["a"; "b"])
    = (Raise KeyError, mk_Order ["b"] ["a"; "b"]).
Proof. repeat split. Qed.

(** C6: with [reverse] set, an element whose key was never pushed is
    sorted to the head of the list, not to its tail. *)
Theorem rearrange_reverse_absent_first :
  rearrange_list (mk_Order ["a"; "b"] ["a"; "b"]) ["a"; "x"; "b"]
                 (fun e => e) true
    = ["x"; "b"; "a"] /\
  rearrange_list (mk_Order ["a"; "b"] ["a"; "b"]) ["b"; "x"; "a"]
                 (fun e => e) false
    = ["a"; "b"; "x"].
Proof. split; vm_compute; reflexivity. Qed.

(** ** [rearrange_list] sorts *)

Section SortFacts.
Variable A : Type.
Variable rank : A -> N.
Variable reverse : bool.

Lemma before_total :
  forall x y, before rank reverse x y = false ->
              before rank reverse y x = true.
Proof.
  intros x y. unfold before. destruct reverse; intros H;
    apply N.leb_gt in H; apply N.leb_le; now apply N.lt_le_incl.
Qed.

Lemma before_trans :
  forall x y z,
    before rank reverse x y = true -> before rank reverse y z = true ->
    before rank reverse x z = true.
Proof.
  intros x y z. unfold before. destruct reverse; intros H1 H2;
    apply N.leb_le in H1; apply N.leb_le in H2; apply N.leb_le;
    eapply N.le_trans; eassumption.
Qed.

Lemma insert_perm :
  forall x l, Permutation (x :: l) (insert rank reverse x l).
Proof.
  intros x l; induction l as [|y l IH]; simpl; [constructor; constructor|].
  destruct (before rank reverse x y); [apply Permutation_refl|].
  eapply perm_trans; [apply perm_swap|]. now constructor.
Qed.

Lemma list_sort_perm :
  forall l, Permutation l (list_sort rank reverse l).
Proof.
  induction l as [|x l IH]; simpl; [constructor|].
  eapply perm_trans; [|apply insert_perm]. now constructor.
Qed.

Lemma insert_sorted :
  forall x l,
    StronglySorted (fun a b => before rank reverse a b = true) l ->
    StronglySorted (fun a b => before rank reverse a b = true)
                   (insert rank reverse x l).
Proof.
  intros x l; induction l as [|y l IH]; intros Hs; simpl.
  - constructor; constructor.
  - inversion Hs as [|y' l' Hl Hy]; subst.
    destruct (before rank reverse x y) eqn:E.
    + constructor; [exact Hs|]. constructor; [exact E|].
      eapply Forall_impl; [|exact Hy].
      intros z Hz. eapply before_trans; eassumption.
    + constructor; [now apply IH|].
      apply (Permutation_Forall (insert_perm x l)).
      constructor; [now apply before_total|exact Hy].
Qed.

Lemma list_sort_sorted :
  forall l,
    StronglySorted (fun a b => before rank reverse a b = true)
                   (list_sort rank reverse l).
Proof.
  induction l as [|x l IH]; simpl; [constructor|now apply insert_sorted].
Qed.
End SortFacts.

Lemma StronglySorted_weaken :
  forall (A : Type) (R R' : A -> A -> Prop) (l : list A),
    (forall a b, R a b -> R' a b) ->
    StronglySorted R l -> StronglySorted R' l.
Proof.
  intros A R R' l HR Hs; induction Hs as [|a l Hs IH Ha]; constructor;
    [exact IH|].
  eapply Forall_impl; [|exact Ha]. intros b. apply HR.
Qed.

(** [rearrange_list] keeps the elements of the list and orders them by the
    rank of their keys, ascending, or descending when [reverse] is set;
    a key outside the sequence has the rank 99999 in both directions. *)
Lemma rearrange_list_sorted :
  forall (A : Type) (o : _Order) (lst : list A) (key : A -> string) reverse,
    let rank := fun e => dict_find String.eqb 99999%N (key e) (indices o) in
    Permutation lst (rearrange_list o lst key reverse) /\
    StronglySorted
      (fun a b => if reverse then (rank b <= rank a)%N
                  else (rank a <= rank b)%N)
      (rearrange_list o lst key reverse).
Proof.
  intros A o lst key reverse rank. split.
  - apply list_sort_perm.
  - unfold rearrange_list. fold rank.
    eapply StronglySorted_weaken; [|apply list_sort_sorted].
    intros a b H. unfold before in H.
    destruct reverse; now apply N.leb_le in H.
Qed.

(** ** Version keys *)

Lemma compare_key_eq : forall a b, compare_key a b = Eq -> a = b.
Proof.
  induction a as [|x a IH]; destruct b as [|y b]; simpl; intros H;
    try discriminate; [reflexivity|].
  destruct (Nat.compare x y) eqn:E; try discriminate.
  apply Nat.compare_eq in E. subst. f_equal. now apply IH.
Qed.

Lemma compare_key_refl : forall a, compare_key a a = Eq.
Proof.
  induction a as [|x a IH]; simpl; [reflexivity|].
  now rewrite Nat.compare_refl.
Qed.

Lemma compare_key_antisym :
  forall a b, compare_key b a = CompOpp (compare_key a b).
Proof.
  induction a as [|x a IH]; destruct b as [|y b]; simpl; try reflexivity.
  rewrite (Nat.compare_antisym x y).
  destruct (Nat.compare x y); simpl; auto.
Qed.

Lemma key_eqb_eq : forall a b, key_eqb a b = true <-> a = b.
Proof.
  intros a b. unfold key_eqb. split.
  - destruct (compare_key a b) eqn:E; try discriminate.
    intros _. now apply compare_key_eq.
  - intros ->. now rewrite compare_key_refl.
Qed.

Lemma key_eqb_sym : forall a b, key_eqb a b = key_eqb b a.
Proof.
  intros a b. unfold key_eqb. rewrite (compare_key_antisym a b).
  destruct (compare_key a b); reflexivity.
Qed.

(** Whether a version satisfies a requirement depends on its key only. *)
Lemma version_in_key :
  forall p q r,
    key_eqb (version_key p) (version_key q) = true ->
    version_in (version p) r = version_in (version q) r.
Proof.
  intros p q r H. apply key_eqb_eq in H. unfold version_key in H.
  unfold version_in. now rewrite H.
Qed.

Lemma satisfies_all_key :
  forall ts p q,
    key_eqb (version_key p) (version_key q) = true ->
    satisfies_all ts p = satisfies_all ts q.
Proof.
  intros ts p q H. unfold satisfies_all.
  induction ts as [|r ts IH]; simpl; [reflexivity|].
  now rewrite IH, (version_in_key p q r H).
Qed.

(** ** A node that is pending for install *)

(** C10: on a node with no installed distribution and a pending install of
    [p0], taken from the releases of its name, a call of [add_requirement]
    whose highest qualifying release [p] has another version key than [p0]
    reaches [_mark_for_change], which reads [version_key] of the missing
    installed distribution: the call ends in [AttributeError], not in
    [RequirementNotFound], and marks nothing. *)
Theorem add_requirement_pending_install_fails :
  forall available fuel r nodeps parent g nn p0 releases p rest,
    dict_get String.eqb (req_name r) (nodes g)
      = Some (mkNode nn None (Some (Dist p0))) ->
    available (req_name r) = Ok releases ->
    In p0 releases ->
    filter (satisfies_all (to_satisfy g r)) releases = p :: rest ->
    (forall q, In q (p :: rest) ->
               key_gtb (version_key q) (version_key p) = false) ->
    key_eqb (version_key p) (version_key p0) = false ->
    exists g',
      add_requirement available (S fuel) r nodeps parent g
        = (Raise AttributeError, g') /\
      nodes g' = nodes g /\ orders g' = orders g.
Proof.
  intros available fuel r nodeps parent g nn p0 releases p rest
         Hnode Hav Hin Hfil Hmax Hkey.
  assert (Hch : needs_change (to_satisfy g r) p0 p = true).
  { unfold needs_change. rewrite key_eqb_sym, Hkey.
    destruct (key_gtb (version_key p0) (version_key p)) eqn:Hgt;
      [|reflexivity].
    destruct (satisfies_all (to_satisfy g r) p0) eqn:Hsat; [|reflexivity].
    assert (Hp0 : In p0 (p :: rest)).
    { rewrite <- Hfil. apply filter_In. now split. }
    rewrite (Hmax _ Hp0) in Hgt. discriminate. }
  exists (set_edges g (edges_touch (req_name r) (edges g))).
  split; [|split; reflexivity].
  rewrite add_requirement_S. unfold bind at 1.
  unfold add_requirement_node. rewrite Hnode.
  unfold bind at 1. unfold call. rewrite Hav.
  destruct releases as [|p1 releases']; [destruct Hin|].
  rewrite Hfil.
  unfold pkg1_or_pkg; cbn [pkg1 pkg].
  rewrite Hch.
  unfold bind at 1. unfold _mark_for_change.
  cbn [nodes set_edges]. rewrite Hnode. cbn [pkg]. reflexivity.
Qed.

(** The claim at a graph reached by [add_requirement("pycrypto<=2.1")]
    from a database without pycrypto: [add_requirement("pycrypto")] then
    ends in [AttributeError]. *)
Lemma add_requirement_pending_install_fails_witness :
  reachable Fresh.get_installed_distributions
            ExampleDepGraph.get_available_distributions
            Fresh.graph_pycrypto_le /\
  exists g',
    add_requirement ExampleDepGraph.get_available_distributions 1
                    (req "pycrypto" []) false None Fresh.graph_pycrypto_le
      = (Raise AttributeError, g') /\
    nodes g' = nodes Fresh.graph_pycrypto_le /\
    orders g' = orders Fresh.graph_pycrypto_le.
Proof.
  split.
  - apply reach_add with (g := Fresh.graph) (fuel := 1) (nodeps := false)
                         (r := req "pycrypto" [(OpLe, "2.1")]) (b := true);
      [apply reach_init|].
    vm_compute. reflexivity.
  - apply (@add_requirement_pending_install_fails
             ExampleDepGraph.get_available_distributions 0
             (req "pycrypto" []) false None Fresh.graph_pycrypto_le
             "pycrypto" ExampleDepGraph.pycrypto_2_1
             [ExampleDepGraph.pycrypto_2_3; ExampleDepGraph.pycrypto_2_1]
             ExampleDepGraph.pycrypto_2_3 [ExampleDepGraph.pycrypto_2_1]).
    + vm_compute. reflexivity.
    + vm_compute. reflexivity.
    + simpl. right. left. reflexivity.
    + vm_compute. reflexivity.
    + intros q [<-|[<-|[]]]; vm_compute; reflexivity.
    + vm_compute. reflexivity.
Defined.

(** ** When [add_requirement] raises [RequirementNotFound] *)

Ltac break_match :=
  match goal with
  | |- context [match ?x with _ => _ end] => destruct x eqn:?
  | |- context [if ?x then _ else _] => destruct x eqn:?
  end.

Lemma push_not_RequirementNotFound :
  forall e o x rb, fst (push e o) <> Raise (RequirementNotFound x rb).
Proof. intros. unfold push. repeat break_match; simpl; discriminate. Qed.

Lemma _mark_for_change_not_RequirementNotFound :
  forall n p required_by r g x rb,
    fst (_mark_for_change n p required_by r g)
    <> Raise (RequirementNotFound x rb).
Proof.
  intros. unfold _mark_for_change.
  destruct (dict_get String.eqb n (nodes g)) as [node|]; [|discriminate].
  destruct (pkg node) as [p0|]; [|discriminate].
  unfold bind, set_node, _mark_new_requirement, ret, push_change.
  destruct (truthy required_by); cbn [_order_change set_edges set_nodes].
  - pose proof (push_not_RequirementNotFound n (_order_change g) x rb) as Hp.
    destruct (push n (_order_change g)) as [[[]|e|] o]; simpl in *;
      try discriminate.
    intros Hc; apply Hp; congruence.
  - pose proof (push_not_RequirementNotFound n (_order_change g) x rb) as Hp.
    destruct (push n (_order_change g)) as [[[]|e|] o]; simpl in *;
      try discriminate.
    intros Hc; apply Hp; congruence.
Qed.

Lemma _mark_for_install_not_RequirementNotFound :
  forall n p required_by r g x rb,
    fst (_mark_for_install n p required_by r g)
    <> Raise (RequirementNotFound x rb).
Proof.
  intros. unfold _mark_for_install.
  unfold bind, assert, set_node, _mark_new_requirement, ret, push_new, raise.
  destruct (negb (has_package g n)); [|discriminate].
  destruct (truthy required_by); cbn [_order_new set_edges set_nodes].
  - pose proof (push_not_RequirementNotFound n (_order_new g) x rb) as Hp.
    destruct (push n (_order_new g)) as [[[]|e|] o]; simpl in *;
      try discriminate.
    intros Hc; apply Hp; congruence.
  - pose proof (push_not_RequirementNotFound n (_order_new g) x rb) as Hp.
    destruct (push n (_order_new g)) as [[[]|e|] o]; simpl in *;
      try discriminate.
    intros Hc; apply Hp; congruence.
Qed.

(** What lines 262-330 raise, given the releases of the name. *)
Lemma add_requirement_node_not_found :
  forall available r parent g releases x rb,
    available (req_name r) = Ok releases ->
    (fst (add_requirement_node available r parent g)
       = Raise (RequirementNotFound x rb)
     <->
     (releases = [] /\ x = inl r /\ rb = parent) \/
     (releases <> [] /\
      filter (satisfies_all (to_satisfy g r)) releases = [] /\
      x = inr (req2str (to_satisfy g r)) /\ rb = parent)).
Proof.
  intros available r parent g releases x rb Hav.
  unfold add_requirement_node.
  set (g1 := match dict_get String.eqb (req_name r) (nodes g) with
             | Some _ => set_edges g (edges_touch (req_name r) (edges g))
             | None => g
             end).
  unfold bind at 1. unfold call. rewrite Hav.
  destruct releases as [|p1 releases'].
  { unfold raise; simpl. split.
    - intros H; inversion H; subst. left. auto.
    - intros [[_ [-> ->]]|[H _]]; [reflexivity|now elim H]. }
  destruct (filter (satisfies_all (to_satisfy g r)) (p1 :: releases'))
    as [|p rest] eqn:Hfil.
  { unfold raise; simpl. split.
    - intros H; inversion H; subst. right. repeat split. discriminate.
    - intros [[H _]|[_ [_ [-> ->]]]]; [discriminate|reflexivity]. }
  split.
  - intros H. exfalso. revert H.
    destruct (dict_get String.eqb (req_name r) (nodes g)) as [node|].
    + destruct (pkg1_or_pkg node) as [[node_pkg|]|]; try discriminate.
      destruct (needs_change (to_satisfy g r) node_pkg p).
      * unfold bind.
        pose proof (_mark_for_change_not_RequirementNotFound
                      (req_name r) p parent r g1 x rb) as Hm.
        destruct (_mark_for_change (req_name r) p parent r g1)
          as [[node'|e|] g2]; simpl in *; try discriminate.
        intros Hc; apply Hm; congruence.
      * discriminate.
    + unfold bind.
      pose proof (_mark_for_install_not_RequirementNotFound
                    (req_name r) p parent r g1 x rb) as Hm.
      destruct (_mark_for_install (req_name r) p parent r g1)
        as [[node'|e|] g2]; simpl in *; try discriminate.
        intros Hc; apply Hm; congruence.
  - intros [[H _]|[_ [H _]]]; discriminate.
Qed.

(** The loop over the requirements raises when the call for one of them
    does, after the calls for the earlier ones returned. *)
Lemma for_any_raises :
  forall (A : Type) (f : A -> M bool) e l ret0 g,
    fst (for_any f l ret0 g) = Raise e <->
    exists done x rest ret1 g1,
      l = done ++ x :: rest /\
      for_any f done ret0 g = (Ok ret1, g1) /\
      fst (f x g1) = Raise e.
Proof.
  intros A f e l; induction l as [|a l IH]; intros ret0 g.
  - simpl. split; [discriminate|].
    intros (done & x & rest & ret1 & g1 & Hl & _).
    destruct done; discriminate.
  - simpl. unfold bind. split.
    + intros H. destruct (f a g) as [[b|e'|] g1] eqn:E.
      * apply IH in H. destruct H as (done & x & rest & ret1 & g2 & -> & H1 & H2).
        exists (a :: done), x, rest, ret1, g2. split; [reflexivity|].
        split; [|exact H2]. simpl. unfold bind. now rewrite E.
      * exists [], a, l, ret0, g. rewrite E. auto.
      * discriminate.
    + intros (done & x & rest & ret1 & g1 & Hl & H1 & H2).
      destruct done as [|d done].
      * simpl in Hl. inversion Hl; subst. simpl in H1. inversion H1; subst.
        destruct (f x g1) as [[b|e'|] g2]; simpl in *; try discriminate.
        exact H2.
      * simpl in Hl. inversion Hl; subst. simpl in H1. unfold bind in H1.
        destruct (f d g) as [[b|e'|] g2]; try discriminate.
        apply IH. exists done, x, rest, ret1, g1. auto.
Qed.

(** Lines 262-330 end as the collaborator does when it does not return. *)
Lemma add_requirement_node_no_answer :
  forall available r parent g,
    (forall releases, available (req_name r) <> Ok releases) ->
    fst (add_requirement_node available r parent g)
    = match available (req_name r) with
      | Raise e => Raise e
      | _ => OutOfFuel
      end.
Proof.
  intros available r parent g H. unfold add_requirement_node.
  unfold bind at 1. unfold call.
  destruct (available (req_name r)) as [releases|e|]; try reflexivity.
  now elim (H releases).
Qed.

(** A [RequirementNotFound] of lines 262-330 is one of the two of lines
    270-279, when the collaborator raises none itself. *)
Lemma add_requirement_node_raises :
  forall available r parent g x rb,
    (forall n x rb, available n <> Raise (RequirementNotFound x rb)) ->
    (fst (add_requirement_node available r parent g)
       = Raise (RequirementNotFound x rb)
     <-> exists releases,
           available (req_name r) = Ok releases /\
           lookup_fails releases g r parent x rb).
Proof.
  intros available r parent g x rb Hcol.
  destruct (available (req_name r)) as [releases|e|] eqn:Hav.
  - rewrite (add_requirement_node_not_found available r parent g releases
               x rb Hav).
    unfold lookup_fails. split.
    + intros H. exists releases. auto.
    + intros (releases' & E & H). inversion E; subst. exact H.
  - rewrite add_requirement_node_no_answer by (rewrite Hav; discriminate).
    rewrite Hav. split.
    + intros H. inversion H; subst. now elim (Hcol (req_name r) x rb).
    + intros (releases' & E & _). discriminate.
  - rewrite add_requirement_node_no_answer by (rewrite Hav; discriminate).
    rewrite Hav. split; [discriminate|].
    intros (releases' & E & _). discriminate.
Qed.

Lemma add_requirement_raises_not_found :
  forall available,
    (forall n x rb, available n <> Raise (RequirementNotFound x rb)) ->
    forall fuel r nodeps parent g x rb,
      fst (add_requirement available fuel r nodeps parent g)
      = Raise (RequirementNotFound x rb)
      <-> raises_not_found available fuel r nodeps parent g x rb.
Proof.
  intros available Hcol fuel r nodeps parent g x rb. split.
  - revert r nodeps parent g.
    induction fuel as [|fuel IH]; intros r nodeps parent g H;
      [discriminate|].
    rewrite add_requirement_S in H. unfold bind in H.
    destruct (add_requirement_node available r parent g) as [[nr|e|] g1] eqn:E.
    + destruct nodeps; [discriminate|].
      destruct nr as [node ret0]. cbn [fst snd] in H.
      destruct (pkg1_or_pkg node) as [[p|]|] eqn:Hp; try discriminate.
      apply for_any_raises in H.
      destruct H as (done & r' & rest & ret1 & g' & Hl & Hdone & Hr').
      eapply raised_below; eauto.
    + simpl in H. inversion H; subst e.
      assert (Hn : fst (add_requirement_node available r parent g)
                   = Raise (RequirementNotFound x rb)) by now rewrite E.
      apply add_requirement_node_raises in Hn; [|exact Hcol].
      destruct Hn as (releases & Hav & Hf).
      eapply raised_here; eauto.
    + discriminate.
  - intros H.
    induction H as [fuel r nodeps parent g releases x rb Hav Hf
                   |fuel r parent g node ret0 g1 p done r' rest ret1 g' x rb
                      Hnode Hp Hl Hdone Hr' IH].
    + rewrite add_requirement_S. unfold bind.
      assert (Hn : fst (add_requirement_node available r parent g)
                   = Raise (RequirementNotFound x rb)).
      { apply add_requirement_node_raises; [exact Hcol|].
        exists releases. auto. }
      destruct (add_requirement_node available r parent g) as [[nr|e|] g1];
        simpl in *; try discriminate. congruence.
    + rewrite add_requirement_S. unfold bind. rewrite Hnode.
      cbn [fst snd]. rewrite Hp, Hl.
      apply for_any_raises. exists done, r', rest, ret1, g'. auto.
Qed.

(** ** The effect of [add_requirement] on the node of its requirement *)

Lemma add_requirement_node_Ok :
  forall available r parent g nr g',
    add_requirement_node available r parent g = (Ok nr, g') ->
    exists releases p rest,
      available (req_name r) = Ok releases /\
      filter (satisfies_all (to_satisfy g r)) releases = p :: rest /\
      node_effect r parent p g nr g'.
Proof.
  intros available r parent g nr g' H.
  unfold add_requirement_node in H.
  unfold bind at 1 in H. unfold call in H.
  destruct (available (req_name r)) as [releases|e|] eqn:Hav;
    try discriminate.
  destruct releases as [|p1 releases']; [discriminate|].
  destruct (filter (satisfies_all (to_satisfy g r)) (p1 :: releases'))
    as [|p rest] eqn:Hfil; [discriminate|].
  exists (p1 :: releases'), p, rest.
  split; [reflexivity|]. split; [exact Hfil|].
  destruct (dict_get String.eqb (req_name r) (nodes g)) as [node|] eqn:Hnode.
  - destruct (pkg1_or_pkg node) as [[node_pkg|]|] eqn:Hpkg; try discriminate.
    destruct (needs_change (to_satisfy g r) node_pkg p) eqn:Hch.
    + unfold bind at 1 in H. unfold _mark_for_change in H.
      cbn [nodes set_edges] in H. rewrite Hnode in H.
      destruct (pkg node) as [p0|] eqn:Hp0; [|discriminate].
      unfold bind, set_node, _mark_new_requirement, push_change, ret in H.
      cbn [nodes set_edges set_nodes edges _order_change _order_new
           _order_remove set_order_change] in H.
      destruct (truthy parent) eqn:Htr;
        cbn [nodes set_edges set_nodes edges _order_change _order_new
             _order_remove set_order_change] in H;
        destruct (push (req_name r) (_order_change g))
          as [[[]|e|] ord] eqn:Hpush;
        try discriminate;
        inversion H; subst; clear H;
        pose proof (@effect_change r parent p g node node_pkg p0 ord
                      Hnode Hpkg Hch Hp0 Hpush) as He;
        cbv zeta in He; rewrite Htr in He; exact He.
    + unfold bind, _mark_new_requirement, ret in H.
      inversion H; subst; clear H.
      exact (@effect_keep r parent p g node node_pkg Hnode Hpkg Hch).
  - unfold bind at 1 in H. unfold _mark_for_install in H.
    unfold bind, assert, set_node, _mark_new_requirement, push_new, ret, raise
      in H.
    unfold has_package, dict_has in H. rewrite Hnode in H.
    cbn [negb nodes set_edges set_nodes edges _order_change _order_new
         _order_remove set_order_new] in H.
    destruct (truthy parent) eqn:Htr;
      cbn [nodes set_edges set_nodes edges _order_change _order_new
           _order_remove set_order_new] in H;
      destruct (push (req_name r) (_order_new g)) as [[[]|e|] ord] eqn:Hpush;
      try discriminate;
      inversion H; subst; clear H;
      pose proof (@effect_install r parent p g ord Hnode Hpush) as He;
      cbv zeta in He; rewrite Htr in He; exact He.
Qed.

(** ** Dictionaries and edges *)

Lemma dict_get_set_same :
  forall (V : Type) k (v : V) d,
    dict_get String.eqb k (dict_set String.eqb k v d) = Some v.
Proof.
  intros V k v d; induction d as [|[k' v'] d IH]; simpl.
  - now rewrite String.eqb_refl.
  - destruct (String.eqb k k') eqn:E; simpl.
    + now rewrite String.eqb_refl.
    + now rewrite E.
Qed.

Lemma dict_get_set_other :
  forall (V : Type) k k' (v : V) d,
    k' <> k ->
    dict_get String.eqb k' (dict_set String.eqb k v d)
    = dict_get String.eqb k' d.
Proof.
  intros V k k' v d Hne; induction d as [|[k0 v0] d IH]; simpl.
  - apply String.eqb_neq in Hne. now rewrite Hne.
  - destruct (String.eqb k k0) eqn:E; simpl.
    + apply String.eqb_eq in E. subst k0.
      apply String.eqb_neq in Hne. now rewrite Hne.
    + destruct (String.eqb k' k0); [reflexivity|exact IH].
Qed.

Lemma dict_get_app_none :
  forall (V : Type) k (d d' : list (string * V)),
    dict_get String.eqb k d = None ->
    dict_get String.eqb k (d ++ d') = dict_get String.eqb k d'.
Proof.
  intros V k d d'; induction d as [|[k0 v0] d IH]; simpl; [reflexivity|].
  destruct (String.eqb k k0); [discriminate|exact IH].
Qed.

Lemma dict_get_app_some :
  forall (V : Type) k (d d' : list (string * V)) v,
    dict_get String.eqb k d = Some v ->
    dict_get String.eqb k (d ++ d') = Some v.
Proof.
  intros V k d d' v; induction d as [|[k0 v0] d IH]; simpl; [discriminate|].
  destruct (String.eqb k k0); [auto|exact IH].
Qed.

(** Binding a missing name to an empty dictionary records nothing. *)
Lemma edge_reqs_touch :
  forall n e m, edge_reqs (edges_touch n e) m = edge_reqs e m.
Proof.
  intros n e m. unfold edge_reqs, edges_touch, dict_touch, dict_has, dict_find.
  destruct (dict_get String.eqb n e) eqn:E; [reflexivity|].
  destruct (dict_get String.eqb m e) eqn:Em.
  - now rewrite (dict_get_app_some _ _ _ _ _ Em).
  - rewrite (dict_get_app_none _ _ _ _ Em). simpl.
    destruct (String.eqb m n); reflexivity.
Qed.

Lemma dict_find_touch :
  forall n e,
    dict_find String.eqb [] n (edges_touch n e) = dict_find String.eqb [] n e.
Proof.
  intros n e. unfold edges_touch, dict_touch, dict_has, dict_find.
  destruct (dict_get String.eqb n e) eqn:E; [now rewrite E|].
  rewrite (dict_get_app_none _ _ _ _ E). simpl. now rewrite String.eqb_refl.
Qed.

Lemma inner_append_In :
  forall b (r x : Requirement) inner,
    In x (concat (map snd
            (dict_set opt_eqb b (dict_find opt_eqb [] b inner ++ [r]) inner)))
    <-> In x (concat (map snd inner)) \/ x = r.
Proof.
  intros b r x inner; induction inner as [|[k v] inner IH].
  - simpl. intuition.
  - unfold dict_find in *. simpl.
    destruct (opt_eqb b k) eqn:E; simpl.
    + rewrite !in_app_iff. simpl. intuition.
    + rewrite !in_app_iff. rewrite IH. intuition.
Qed.

(** [edges[n][b].append(r)] adds [r] to the requirements on [n] and to no
    other name. *)
Lemma edge_reqs_append_same :
  forall n b r e x,
    In x (edge_reqs (edges_append n b r e) n) <-> In x (edge_reqs e n) \/ x = r.
Proof.
  intros n b r e x. unfold edges_append.
  unfold edge_reqs at 1. unfold dict_find at 1.
  rewrite dict_get_set_same. rewrite dict_find_touch.
  apply inner_append_In.
Qed.

Lemma edge_reqs_append_other :
  forall n b r e m,
    m <> n -> edge_reqs (edges_append n b r e) m = edge_reqs e m.
Proof.
  intros n b r e m Hne. unfold edges_append.
  unfold edge_reqs at 1. unfold dict_find at 1.
  rewrite dict_get_set_other by exact Hne.
  fold (dict_find String.eqb [] m (edges_touch n e)).
  fold (edge_reqs (edges_touch n e) m). apply edge_reqs_touch.
Qed.

(** ** The order sequence, continued *)

Lemma push_Ok :
  forall e o o',
    push e o = (Ok tt, o') ->
    mem e (_elements_set o) = false /\
    o' = mk_Order (_elements o ++ [e]) (_elements_set o ++ [e]).
Proof.
  intros e o o' H. unfold push in H.
  destruct (mem e (_elements_set o)).
  - destruct (mem e (_elements o)); discriminate.
  - inversion H. auto.
Qed.

Lemma mem_app_r : forall e l, mem e (l ++ [e]) = true.
Proof.
  intros e l. unfold mem. rewrite existsb_app. simpl.
  rewrite String.eqb_refl. now rewrite orb_true_r.
Qed.

Lemma mem_app_l : forall x e l, mem x l = true -> mem x (l ++ [e]) = true.
Proof.
  intros x e l H. unfold mem in *. rewrite existsb_app. now rewrite H.
Qed.

(** ** Constraint sets *)

Lemma satisfies_all_In :
  forall ts p,
    satisfies_all ts p = true <->
    forall req, In req ts -> version_in (version p) req = true.
Proof. intros ts p. unfold satisfies_all. apply forallb_forall. Qed.


(** A distribution that is kept satisfies what the candidate satisfies. *)
Lemma needs_change_false :
  forall ts node_pkg p,
    needs_change ts node_pkg p = false ->
    satisfies_all ts p = true ->
    satisfies_all ts node_pkg = true.
Proof.
  intros ts node_pkg p H Hp. unfold needs_change in H.
  destruct (key_eqb (version_key node_pkg) (version_key p)) eqn:E.
  - now rewrite (satisfies_all_key ts _ _ E).
  - destruct (key_gtb (version_key node_pkg) (version_key p));
      [|discriminate].
    now apply negb_false_iff in H.
Qed.


Lemma filter_head_In :
  forall (A : Type) (f : A -> bool) l x rest,
    filter f l = x :: rest -> f x = true /\ In x l.
Proof.
  intros A f l x rest H.
  assert (Hin : In x (filter f l)) by (rewrite H; now left).
  apply filter_In in Hin. tauto.
Qed.

(** ** The requirement is met when [add_requirement] returns *)

Lemma kept_satisfied_frame :
  forall n r g g',
    dict_get String.eqb n (nodes g') = dict_get String.eqb n (nodes g) ->
    edge_reqs (edges g') n = edge_reqs (edges g) n ->
    (mem n (_elements_set (_order_change g)) = true ->
     mem n (_elements_set (_order_change g')) = true) ->
    kept_satisfied n r g -> kept_satisfied n r g'.
Proof.
  intros n r g g' Hn He Ho (node & q & H1 & H2 & H3 & H4 & H5).
  exists node, q. rewrite Hn, He. repeat split; auto.
  destruct H5 as [H5|[H5|H5]]; auto.
Qed.

Lemma node_effect_other :
  forall r' parent p g nr g' n r,
    node_effect r' parent p g nr g' ->
    req_name r' <> n ->
    kept_satisfied n r g -> kept_satisfied n r g'.
Proof.
  intros r' parent p g nr g' n r Heff Hne.
  assert (Hne' : n <> req_name r') by congruence.
  destruct Heff as [ord Hnone Hpush | node node_pkg Hnode Hpkg Hch
                   | node node_pkg p0 ord Hnode Hpkg Hch Hp0 Hpush];
    cbv zeta; apply kept_satisfied_frame;
    cbn [nodes edges set_edges _order_change];
    try reflexivity; try (now apply dict_get_set_other); auto;
    try destruct (truthy parent);
    rewrite ?edge_reqs_append_other by exact Hne';
    rewrite ?edge_reqs_touch; try reflexivity.
  all: apply push_Ok in Hpush; destruct Hpush as [_ ->]; simpl;
    apply mem_app_l.
Qed.

Lemma to_satisfy_node :
  forall g r node,
    dict_get String.eqb (req_name r) (nodes g) = Some node ->
    to_satisfy g r = r :: edge_reqs (edges g) (req_name r).
Proof. intros g r node H. unfold to_satisfy. now rewrite H. Qed.

Lemma node_effect_same :
  forall r' parent p g nr g' r,
    node_effect r' parent p g nr g' ->
    satisfies_all (to_satisfy g r') p = true ->
    kept_satisfied (req_name r') r g -> kept_satisfied (req_name r') r g'.
Proof.
  intros r' parent p g nr g' r Heff Hsat (node & q & H1 & H2 & H3 & H4 & H5).
  destruct Heff as [ord Hnone Hpush | node0 node_pkg Hnode Hpkg Hch
                   | node0 node_pkg p0 ord Hnode Hpkg Hch Hp0 Hpush].
  - congruence.
  - (* the node is kept and [r'] recorded *)
    rewrite Hnode in H1. inversion H1; subst node0. rewrite Hpkg in H2.
    inversion H2; subst node_pkg.
    rewrite (to_satisfy_node _ _ _ Hnode) in *.
    pose proof (needs_change_false _ _ _ Hch Hsat) as Hq.
    rewrite satisfies_all_In in Hq.
    exists node, q. cbn [nodes edges set_edges _order_change].
    repeat split; auto.
    + intros req Hin. apply edge_reqs_append_same in Hin.
      rewrite edge_reqs_touch in Hin.
      destruct Hin as [Hin| ->]; [now apply H4|apply Hq; now left].
    + destruct H5 as [H5|[H5|H5]]; auto.
      right; right. apply edge_reqs_append_same. rewrite edge_reqs_touch.
      now left.
  - (* the node is changed: [r] was recorded *)
    rewrite Hnode in H1. inversion H1; subst node0.
    apply push_Ok in Hpush. destruct Hpush as [Hmem ->].
    destruct H5 as [H5|[H5|H5]]; [congruence|congruence|].
    rewrite (to_satisfy_node _ _ _ Hnode) in *.
    set (q' := if key_eqb (version_key p) (version_key p0) then p0 else p).
    assert (Hkey : key_eqb (version_key q') (version_key p) = true).
    { unfold q'. destruct (key_eqb (version_key p) (version_key p0)) eqn:E.
      - now rewrite key_eqb_sym.
      - apply key_eqb_eq. reflexivity. }
    assert (Hq : forall req, In req (r' :: edge_reqs (edges g) (req_name r'))
                             -> version_in (version q') req = true).
    { apply satisfies_all_In. now rewrite (satisfies_all_key _ _ _ Hkey). }
    exists (mkNode (req_name r') (Some p0)
              (if key_eqb (version_key p) (version_key p0)
               then None else Some (Dist p))), q'.
    cbv zeta. cbn [nodes edges _order_change].
    split; [apply dict_get_set_same|].
    split.
    { unfold pkg1_or_pkg, q'. cbn [pkg1 pkg].
      destruct (key_eqb (version_key p) (version_key p0)); reflexivity. }
    split; [apply Hq; now right|].
    split.
    + intros req Hin. destruct (truthy parent).
      * apply edge_reqs_append_same in Hin. rewrite edge_reqs_touch in Hin.
        destruct Hin as [Hin| ->]; apply Hq; [now right|now left].
      * rewrite edge_reqs_touch in Hin. apply Hq. now right.
    + left. simpl. apply mem_app_r.
Qed.

(** After lines 262-330 the requirement of the call is met, and stays so. *)
Lemma node_effect_establishes :
  forall r parent p g nr g',
    node_effect r parent p g nr g' ->
    satisfies_all (to_satisfy g r) p = true ->
    no_orphan_edges g (req_name r) ->
    kept_satisfied (req_name r) r g'.
Proof.
  intros r parent p g nr g' Heff Hsat Horph.
  destruct Heff as [ord Hnone Hpush | node node_pkg Hnode Hpkg Hch
                   | node node_pkg p0 ord Hnode Hpkg Hch Hp0 Hpush].
  - (* a new node *)
    assert (He : edge_reqs (edges g) (req_name r) = []).
    { apply Horph. unfold has_package, dict_has. now rewrite Hnone. }
    unfold to_satisfy in Hsat. rewrite Hnone in Hsat.
    rewrite satisfies_all_In in Hsat.
    exists (mkNode (req_name r) None (Some (Dist p))), p.
    cbv zeta. cbn [nodes edges _order_change].
    split; [apply dict_get_set_same|]. split; [reflexivity|].
    split; [apply Hsat; now left|]. split; [|right; left; reflexivity].
    intros req Hin. destruct (truthy parent).
    + apply edge_reqs_append_same in Hin. rewrite He in Hin.
      destruct Hin as [[]| ->]. apply Hsat. now left.
    + rewrite He in Hin. destruct Hin.
  - (* the node is kept *)
    rewrite (to_satisfy_node _ _ _ Hnode) in *.
    pose proof (needs_change_false _ _ _ Hch Hsat) as Hq.
    rewrite satisfies_all_In in Hq.
    exists node, node_pkg. cbn [nodes edges set_edges _order_change].
    split; [exact Hnode|]. split; [exact Hpkg|].
    split; [apply Hq; now left|]. split.
    + intros req Hin. apply edge_reqs_append_same in Hin.
      rewrite edge_reqs_touch in Hin.
      destruct Hin as [Hin| ->]; apply Hq; [now right|now left].
    + right; right. apply edge_reqs_append_same. now right.
  - (* the node is changed *)
    apply push_Ok in Hpush. destruct Hpush as [Hmem ->].
    rewrite (to_satisfy_node _ _ _ Hnode) in *.
    set (q' := if key_eqb (version_key p) (version_key p0) then p0 else p).
    assert (Hkey : key_eqb (version_key q') (version_key p) = true).
    { unfold q'. destruct (key_eqb (version_key p) (version_key p0)) eqn:E.
      - now rewrite key_eqb_sym.
      - apply key_eqb_eq. reflexivity. }
    assert (Hq : forall req, In req (r :: edge_reqs (edges g) (req_name r))
                             -> version_in (version q') req = true).
    { apply satisfies_all_In. now rewrite (satisfies_all_key _ _ _ Hkey). }
    exists (mkNode (req_name r) (Some p0)
              (if key_eqb (version_key p) (version_key p0)
               then None else Some (Dist p))), q'.
    cbv zeta. cbn [nodes edges _order_change].
    split; [apply dict_get_set_same|].
    split.
    { unfold pkg1_or_pkg, q'. cbn [pkg1 pkg].
      destruct (key_eqb (version_key p) (version_key p0)); reflexivity. }
    split; [apply Hq; now left|].
    split.
    + intros req Hin. destruct (truthy parent).
      * apply edge_reqs_append_same in Hin. rewrite edge_reqs_touch in Hin.
        destruct Hin as [Hin| ->]; apply Hq; [now right|now left].
      * rewrite edge_reqs_touch in Hin. apply Hq. now right.
    + left. simpl. apply mem_app_r.
Qed.

Lemma for_any_preserves :
  forall (A : Type) (P : DepGraph -> Prop) (f : A -> M bool),
    (forall x g b g', f x g = (Ok b, g') -> P g -> P g') ->
    forall l ret0 g b g',
      for_any f l ret0 g = (Ok b, g') -> P g -> P g'.
Proof.
  intros A P f Hf l; induction l as [|x l IH]; intros ret0 g b g' H HP.
  - inversion H; now subst.
  - simpl in H. unfold bind in H.
    destruct (f x g) as [[b0|e|] g1] eqn:E; try discriminate.
    eapply IH; [exact H|]. eapply Hf; eassumption.
Qed.

Lemma add_requirement_preserves :
  forall available n r fuel r' nodeps parent g b g',
    add_requirement available fuel r' nodeps parent g = (Ok b, g') ->
    kept_satisfied n r g -> kept_satisfied n r g'.
Proof.
  intros available n r fuel; induction fuel as [|fuel IH];
    intros r' nodeps parent g b g' H HK; [discriminate|].
  rewrite add_requirement_S in H. unfold bind in H.
  destruct (add_requirement_node available r' parent g) as [[nr|e|] g1] eqn:E;
    try discriminate.
  apply add_requirement_node_Ok in E.
  destruct E as (releases & p & rest & Hav & Hfil & Heff).
  apply filter_head_In in Hfil. destruct Hfil as [Hsat _].
  assert (HK1 : kept_satisfied n r g1).
  { destruct (string_dec (req_name r') n) as [<-|Hne].
    - eapply node_effect_same; eassumption.
    - eapply node_effect_other; eassumption. }
  destruct nodeps; [inversion H; now subst|].
  destruct (pkg1_or_pkg (fst nr)) as [[p1|]|]; try discriminate.
  eapply for_any_preserves; [|exact H|exact HK1].
  intros x g0 b0 g0' Hx. eapply IH. exact Hx.
Qed.

Lemma kept_satisfied_met :
  forall r g, kept_satisfied (req_name r) r g -> requirement_met g r.
Proof.
  intros r g (node & q & H1 & H2 & H3 & H4 & _).
  exists node, q. repeat split; auto.
  unfold pkg1_or_pkg in H2. unfold effective.
  destruct (pkg1 node) as [[p|]|]; try congruence.
  destruct (pkg node); simpl in H2; congruence.
Qed.

(** On a graph that records no requirement for a name without a node, a
    call of [add_requirement] that returns leaves the node of its
    requirement with an effective distribution that satisfies the
    requirement and every requirement recorded for the name. *)
Lemma add_requirement_met :
  forall available fuel r nodeps parent g b g',
    no_orphan_edges g (req_name r) ->
    add_requirement available fuel r nodeps parent g = (Ok b, g') ->
    requirement_met g' r.
Proof.
  intros available fuel r nodeps parent g b g' Horph H.
  destruct fuel as [|fuel]; [discriminate|].
  rewrite add_requirement_S in H. unfold bind in H.
  destruct (add_requirement_node available r parent g) as [[nr|e|] g1] eqn:E;
    try discriminate.
  apply add_requirement_node_Ok in E.
  destruct E as (releases & p & rest & Hav & Hfil & Heff).
  apply filter_head_In in Hfil. destruct Hfil as [Hsat _].
  pose proof (node_effect_establishes _ _ _ _ _ _ Heff Hsat Horph) as HK.
  apply kept_satisfied_met.
  destruct nodeps; [inversion H; now subst|].
  destruct (pkg1_or_pkg (fst nr)) as [[p1|]|]; try discriminate.
  eapply for_any_preserves; [|exact H|exact HK].
  intros x g0 b0 g0' Hx. eapply add_requirement_preserves. exact Hx.
Qed.

(** C7: from an installed database whose extra [fast] of paramiko
    requires [pycrypto<=2.1] while pycrypto is not installed, the loader
    records that requirement on pycrypto; [add_requirement("pycrypto")]
    then returns [True] with pycrypto-2.3 pending, which the recorded
    [pycrypto<=2.1] excludes. *)
Theorem add_requirement_ignores_orphan_edges :
  forall fuel,
    let res := add_requirement MissingExtra.get_available_distributions
                 (fuel + 1) (req "pycrypto" []) false None
                 MissingExtra.graph in
    edge_reqs (edges MissingExtra.graph) "pycrypto"
      = [req "pycrypto" [(OpLe, "2.1")]] /\
    has_package MissingExtra.graph "pycrypto" = false /\
    fst res = Ok true /\
    dict_get String.eqb "pycrypto" (nodes (snd res))
      = Some (mkNode "pycrypto" None
                     (Some (Dist ExampleDepGraph.pycrypto_2_3))) /\
    edge_reqs (edges (snd res)) "pycrypto" = [req "pycrypto" [(OpLe, "2.1")]] /\
    version_in (version ExampleDepGraph.pycrypto_2_3)
               (req "pycrypto" [(OpLe, "2.1")]) = false /\
    ~ requirement_met (snd res) (req "pycrypto" []).
Proof.
  intros fuel res. subst res.
  rewrite add_requirement_fuel_plus by (vm_compute; discriminate).
  assert (Hn : dict_get String.eqb "pycrypto"
                 (nodes (snd (add_requirement
                                MissingExtra.get_available_distributions 1
                                (req "pycrypto" []) false None
                                MissingExtra.graph)))
               = Some (mkNode "pycrypto" None
                              (Some (Dist ExampleDepGraph.pycrypto_2_3))))
    by (vm_compute; reflexivity).
  assert (He : edge_reqs
                 (edges (snd (add_requirement
                                MissingExtra.get_available_distributions 1
                                (req "pycrypto" []) false None
                                MissingExtra.graph))) "pycrypto"
               = [req "pycrypto" [(OpLe, "2.1")]])
    by (vm_compute; reflexivity).
  repeat split; try (vm_compute; reflexivity); try assumption.
  intros (node & p & H1 & H2 & _ & H4).
  change (req_name (req "pycrypto" [])) with "pycrypto" in H1, H4.
  rewrite Hn in H1. inversion H1; subst node. simpl in H2.
  inversion H2; subst p. rewrite He in H4.
  specialize (H4 _ (or_introl eq_refl)). vm_compute in H4. discriminate.
Qed.

(** ** Calling [add_requirement] twice *)






(** * Further properties *)

(** ** The order sequence *)

Lemma mem_In : forall x l, mem x l = true <-> In x l.
Proof.
  intros x l. unfold mem. rewrite existsb_exists. split.
  - intros [y [Hy E]]. apply String.eqb_eq in E. now subst.
  - intros H. exists x. split; [exact H|apply String.eqb_refl].
Qed.

Lemma mem_false : forall x l, mem x l = false <-> ~ In x l.
Proof.
  intros x l. rewrite <- mem_In. destruct (mem x l); split; intros H;
    try discriminate; try reflexivity;
    try (now elim H); intros Hc; discriminate.
Qed.

Lemma list_remove_In :
  forall x y l, In y (list_remove x l) -> In y l.
Proof.
  intros x y l; induction l as [|z l IH]; simpl; [tauto|].
  destruct (String.eqb x z); simpl; intuition.
Qed.

Lemma list_remove_NoDup :
  forall x l, NoDup l -> NoDup (list_remove x l).
Proof.
  intros x l H; induction H as [|z l Hz Hl IH]; simpl; [constructor|].
  destruct (String.eqb x z); [exact Hl|].
  constructor; [|exact IH]. intros Hc. apply Hz.
  eapply list_remove_In; exact Hc.
Qed.

(** On a duplicate-free list [list.remove] leaves no occurrence. *)
Lemma list_remove_gone :
  forall x l, NoDup l -> ~ In x (list_remove x l).
Proof.
  intros x l H; induction H as [|z l Hz Hl IH]; simpl; [tauto|].
  destruct (String.eqb x z) eqn:E.
  - apply String.eqb_eq in E. now subst.
  - apply String.eqb_neq in E. simpl. intros [Hc|Hc]; [now elim E|tauto].
Qed.

Lemma order_wf_push : forall e o, order_wf o -> order_wf (snd (push e o)).
Proof.
  intros e o [Hnd Hin]. unfold push.
  destruct (mem e (_elements_set o)) eqn:Hs.
  - destruct (mem e (_elements o)) eqn:He; simpl.
    + split; simpl.
      * now apply list_remove_NoDup.
      * intros x Hx. apply Hin. eapply list_remove_In; exact Hx.
    + split; assumption.
  - split; simpl.
    + apply NoDup_app; [exact Hnd|repeat constructor; simpl; tauto|].
      intros x Hx [<-|[]]. apply Hin in Hx. congruence.
    + intros x Hx. apply in_app_or in Hx. destruct Hx as [Hx|[<-|[]]].
      * apply mem_app_l. now apply Hin.
      * apply mem_app_r.
Qed.

Lemma push_set_mono :
  forall e o x,
    mem x (_elements_set o) = true ->
    mem x (_elements_set (snd (push e o))) = true.
Proof.
  intros e o x H. unfold push.
  destruct (mem e (_elements_set o)).
  - destruct (mem e (_elements o)); exact H.
  - simpl. now apply mem_app_l.
Qed.

Lemma push_set_mem :
  forall e o, mem e (_elements_set (snd (push e o))) = true.
Proof.
  intros e o. unfold push.
  destruct (mem e (_elements_set o)) eqn:E.
  - destruct (mem e (_elements o)); exact E.
  - simpl. apply mem_app_r.
Qed.

(** X1: however [push] ends, [_elements] stays free of duplicates and
    within [_elements_set], [_elements_set] loses nothing, and the pushed
    element is in [_elements_set]. *)
Theorem push_keeps_wf :
  forall e o,
    order_wf o ->
    order_wf (snd (push e o)) /\
    (forall x, mem x (_elements_set o) = true ->
               mem x (_elements_set (snd (push e o))) = true) /\
    mem e (_elements_set (snd (push e o))) = true.
Proof.
  intros e o H. split; [now apply order_wf_push|]. split.
  - intros x. apply push_set_mono.
  - apply push_set_mem.
Qed.

Lemma push_keeps_wf_witness :
  order_wf (snd (push "a" (mk_Order ["a"; "b"] ["a"; "b"]))).
Proof.
  apply (push_keeps_wf "a" (mk_Order ["a"; "b"] ["a"; "b"])).
  split; simpl.
  - repeat constructor; simpl; intuition discriminate.
  - intros x [<-|[<-|[]]]; reflexivity.
Defined.

(** X2: pushing, one after the other, elements that differ from each other
    and from those already pushed never raises, and appends them in that
    order. *)
Theorem push_all_fresh :
  forall l o,
    NoDup l ->
    (forall x, In x l -> mem x (_elements_set o) = false) ->
    push_all l o
    = (Ok tt, mk_Order (_elements o ++ l) (_elements_set o ++ l)).
Proof.
  induction l as [|e l IH]; intros o Hnd Hfresh.
  - simpl. rewrite !app_nil_r. now destruct o.
  - simpl. rewrite push_fresh by (apply Hfresh; now left).
    inversion Hnd as [|e' l' He Hl]; subst.
    rewrite IH; simpl.
    + now rewrite <- !app_assoc.
    + exact Hl.
    + intros x Hx. apply mem_false. intros Hc.
      apply in_app_or in Hc. destruct Hc as [Hc|[<-|[]]].
      * apply mem_In in Hc. rewrite (Hfresh x) in Hc by now right.
        discriminate.
      * now apply He.
Qed.

Lemma push_all_fresh_witness :
  push_all ["fabric"; "paramiko"] empty_Order
  = (Ok tt, mk_Order ["fabric"; "paramiko"] ["fabric"; "paramiko"]).
Proof.
  apply (push_all_fresh ["fabric"; "paramiko"] empty_Order).
  - repeat constructor; simpl; intuition discriminate.
  - intros x _. reflexivity.
Defined.

(** ** The ranks [rearrange_list] sorts by *)

Lemma dict_set_fresh :
  forall (V : Type) k (v : V) d,
    dict_get String.eqb k d = None ->
    dict_set String.eqb k v d = d ++ [(k, v)].
Proof.
  intros V k v d; induction d as [|[k' v'] d IH]; simpl; intros H;
    [reflexivity|].
  destruct (String.eqb k k'); [discriminate|]. now rewrite IH.
Qed.

Lemma indices_fold :
  forall l i d,
    NoDup l ->
    (forall x, In x l -> dict_get String.eqb x d = None) ->
    fold_left (fun d ie => dict_set String.eqb (snd ie) (fst ie) d)
              (enumerate_from i l) d
    = d ++ map swap_index (enumerate_from i l).
Proof.
  induction l as [|e l IH]; intros i d Hnd Hd; simpl;
    [now rewrite app_nil_r|].
  inversion Hnd as [|e' l' He Hl]; subst.
  rewrite dict_set_fresh by (apply Hd; now left).
  rewrite IH; [now rewrite <- app_assoc|exact Hl|].
  intros x Hx.
  rewrite (dict_get_app_none _ x d [(e, i)]) by (apply Hd; now right).
  simpl. destruct (String.eqb x e) eqn:E; [|reflexivity].
  apply String.eqb_eq in E. subst. now elim He.
Qed.

Lemma enumerate_get_nth :
  forall l i j e,
    NoDup l -> nth_error l j = Some e ->
    dict_get String.eqb e (map swap_index (enumerate_from i l))
    = Some (i + N.of_nat j)%N.
Proof.
  induction l as [|x l IH]; intros i j e Hnd Hj;
    [destruct j; discriminate|].
  inversion Hnd as [|x' l' Hx Hl]; subst.
  destruct j as [|j]; simpl in *.
  - inversion Hj; subst. rewrite String.eqb_refl. f_equal. lia.
  - destruct (String.eqb e x) eqn:E.
    + apply String.eqb_eq in E. subst.
      elim Hx. eapply nth_error_In; exact Hj.
    + rewrite (IH (N.succ i) j e Hl Hj). f_equal. lia.
Qed.

Lemma enumerate_get_absent :
  forall l i e,
    ~ In e l ->
    dict_get String.eqb e (map swap_index (enumerate_from i l)) = None.
Proof.
  induction l as [|x l IH]; intros i e He; simpl; [reflexivity|].
  destruct (String.eqb e x) eqn:E.
  - apply String.eqb_eq in E. subst. elim He. now left.
  - apply IH. intros Hc. apply He. now right.
Qed.

(** X3: when the sequence has no duplicates, [rearrange_list] returns the
    elements of the list ordered by the position at which their key was
    pushed, ascending, or descending when [reverse] is set; a key that was
    never pushed counts as position 99999. *)
Theorem rearrange_list_order :
  forall (A : Type) (o : _Order) (lst : list A) (key : A -> string) reverse,
    NoDup (_elements o) ->
    let rank := fun k => dict_find String.eqb 99999%N k (indices o) in
    (forall i e, nth_error (_elements o) i = Some e -> rank e = N.of_nat i) /\
    (forall e, ~ In e (_elements o) -> rank e = 99999%N) /\
    Permutation lst (rearrange_list o lst key reverse) /\
    StronglySorted
      (fun a b => if reverse then (rank (key b) <= rank (key a))%N
                  else (rank (key a) <= rank (key b))%N)
      (rearrange_list o lst key reverse).
Proof.
  intros A o lst key reverse Hnd rank.
  assert (Hidx : indices o = map swap_index (enumerate_from 0 (_elements o))).
  { unfold indices. rewrite indices_fold; [reflexivity|exact Hnd|].
    intros; reflexivity. }
  split; [|split].
  - intros i e Hi. unfold rank, dict_find. rewrite Hidx.
    now rewrite (enumerate_get_nth _ 0%N i e Hnd Hi).
  - intros e He. unfold rank, dict_find. rewrite Hidx.
    now rewrite (enumerate_get_absent _ 0%N e He).
  - apply rearrange_list_sorted.
Qed.

Lemma rearrange_list_order_witness :
  Permutation ["b"; "x"; "a"]
              (rearrange_list (mk_Order ["a"; "b"] ["a"; "b"])
                              ["b"; "x"; "a"] (fun e => e) false).
Proof.
  apply (rearrange_list_order string (mk_Order ["a"; "b"] ["a"; "b"])
                              ["b"; "x"; "a"] (fun e => e) false).
  simpl. repeat constructor; simpl; intuition discriminate.
Defined.

(** ** Relations kept by every run *)

Section Keeps.
Variable R : DepGraph -> DepGraph -> Prop.
Hypothesis R_refl : forall g, R g g.
Hypothesis R_trans : forall a b c, R a b -> R b c -> R a c.

Lemma keeps_ret : forall (A : Type) (a : A), keeps R (ret a).
Proof. intros A a g o g' H. inversion H; subst. apply R_refl. Qed.

Lemma keeps_raise : forall (A : Type) e, keeps R (@raise A e).
Proof. intros A e g o g' H. inversion H; subst. apply R_refl. Qed.

Lemma keeps_bind :
  forall (A B : Type) (m : M A) (k : A -> M B),
    keeps R m -> (forall a, keeps R (k a)) -> keeps R (bind m k).
Proof.
  intros A B m k Hm Hk g o g' H. unfold bind in H.
  destruct (m g) as [[a|e|] g1] eqn:E.
  - eapply R_trans; [eapply Hm; exact E|eapply Hk; exact H].
  - inversion H; subst. eapply Hm; exact E.
  - inversion H; subst. eapply Hm; exact E.
Qed.

Lemma keeps_for_any :
  forall (A : Type) (f : A -> M bool),
    (forall x, keeps R (f x)) ->
    forall l ret0, keeps R (for_any f l ret0).
Proof.
  intros A f Hf l; induction l as [|x l IH]; intros ret0; simpl.
  - apply keeps_ret.
  - apply keeps_bind; [apply Hf|intros b; apply IH].
Qed.

Lemma keeps_for_each :
  forall (A : Type) (f : A -> M unit),
    (forall x, keeps R (f x)) ->
    forall l, keeps R (for_each f l).
Proof.
  intros A f Hf l; induction l as [|x l IH]; simpl.
  - apply keeps_ret.
  - apply keeps_bind; [apply Hf|intros b; apply IH].
Qed.

Lemma keeps_add_requirement :
  forall available,
    (forall r parent, keeps R (add_requirement_node available r parent)) ->
    forall fuel r nodeps parent,
      keeps R (add_requirement available fuel r nodeps parent).
Proof.
  intros available Hn fuel; induction fuel as [|fuel IH];
    intros r nodeps parent.
  - intros g o g' H. inversion H; subst. apply R_refl.
  - rewrite add_requirement_S. apply keeps_bind; [apply Hn|].
    intros nr. destruct nodeps; [apply keeps_ret|].
    destruct (pkg1_or_pkg (fst nr)) as [[p|]|]; try apply keeps_raise.
    apply keeps_for_any. intros r'. apply IH.
Qed.

Lemma keeps_remove_package :
  (forall n, keeps R (_mark_for_removal n)) ->
  (forall g n, R g (set_edges g (edges_touch n (edges g)))) ->
  forall fuel n nodeps, keeps R (remove_package fuel n nodeps).
Proof.
  intros Hm Ht fuel; induction fuel as [|fuel IH]; intros n nodeps.
  - intros g o g' H. inversion H; subst. apply R_refl.
  - simpl. apply keeps_bind; [apply Hm|].
    intros node. destruct node as [node|]; [|apply keeps_ret].
    destruct n as [n'|]; [|apply keeps_ret].
    destruct nodeps; [apply keeps_ret|].
    intros g o g' H. cbv zeta in H.
    eapply R_trans; [apply (Ht g n')|].
    eapply keeps_for_each; [|exact H]. intros x. apply IH.
Qed.
End Keeps.

(** ** The moves of [add_requirement] and [remove_package] *)

Lemma add_steps_refl : forall g, add_steps g g.
Proof. intros g. apply rt_refl. Qed.

Lemma add_steps_trans :
  forall a b c, add_steps a b -> add_steps b c -> add_steps a c.
Proof. intros a b c. apply rt_trans. Qed.

Lemma remove_steps_refl : forall g, remove_steps g g.
Proof. intros g. apply rt_refl. Qed.

Lemma remove_steps_trans :
  forall a b c, remove_steps a b -> remove_steps b c -> remove_steps a c.
Proof. intros a b c. apply rt_trans. Qed.

Lemma pkg1_or_pkg_not_sentinal :
  forall node q,
    pkg1_or_pkg node = Some (Dist q) -> is_sentinal (pkg1 node) = false.
Proof.
  intros node q H. unfold pkg1_or_pkg in H.
  destruct (pkg1 node) as [[p|]|]; try reflexivity. discriminate.
Qed.

Lemma _mark_for_change_steps :
  forall n p required_by r g o g' node q,
    dict_get String.eqb n (nodes g) = Some node ->
    pkg1_or_pkg node = Some (Dist q) ->
    _mark_for_change n p required_by r g = (o, g') ->
    add_steps g g'.
Proof.
  intros n p required_by r g o g' node q Hnode Hq H.
  unfold _mark_for_change in H. rewrite Hnode in H.
  destruct (pkg node) as [p0|] eqn:Hp0;
    [|inversion H; subst; apply rt_refl].
  pose proof (pkg1_or_pkg_not_sentinal _ _ Hq) as Hs.
  unfold bind, set_node, _mark_new_requirement, push_change, ret in H.
  destruct (truthy required_by);
    cbn [nodes set_edges set_nodes edges _order_change _order_new
         _order_remove set_order_change] in H.
  - eapply rt_trans.
    + apply rt_step. apply (@step_edge g n required_by r).
      unfold has_package, dict_has. now rewrite Hnode.
    + apply rt_step.
      pose proof (@step_change
                    (set_edges g (edges_append n required_by r (edges g)))
                    n node p0 p Hnode Hp0 Hs) as Hstep.
      cbn [nodes set_edges edges _order_change _order_new _order_remove]
        in Hstep.
      destruct (push n (_order_change g)) as [[[]|e|] ord];
        inversion H; subst; exact Hstep.
  - apply rt_step.
    pose proof (@step_change g n node p0 p Hnode Hp0 Hs) as Hstep.
    destruct (push n (_order_change g)) as [[[]|e|] ord];
      inversion H; subst; exact Hstep.
Qed.

Lemma _mark_for_install_steps :
  forall n p required_by r g o g',
    dict_get String.eqb n (nodes g) = None ->
    _mark_for_install n p required_by r g = (o, g') ->
    add_steps g g'.
Proof.
  intros n p required_by r g o g' Hnode H.
  unfold _mark_for_install in H.
  unfold bind, assert, set_node, _mark_new_requirement, push_new, ret, raise
    in H.
  unfold has_package, dict_has in H. rewrite Hnode in H.
  cbn [negb nodes set_edges set_nodes edges _order_change _order_new
       _order_remove set_order_new] in H.
  pose proof (@step_install g n p Hnode) as Hstep.
  destruct (truthy required_by);
    cbn [nodes set_edges set_nodes edges _order_change _order_new
         _order_remove set_order_new] in H.
  - eapply rt_trans; [apply rt_step; exact Hstep|].
    apply rt_step.
    match type of Hstep with
    | add_step _ ?g1 =>
        pose proof (@step_edge g1 n required_by r) as Hedge
    end.
    cbn [nodes set_edges edges _order_change _order_new _order_remove]
      in Hedge.
    unfold has_package, dict_has in Hedge. cbn [nodes] in Hedge.
    rewrite dict_get_set_same in Hedge. specialize (Hedge eq_refl).
    destruct (push n (_order_new g)) as [[[]|e|] ord];
      inversion H; subst; exact Hedge.
  - apply rt_step.
    destruct (push n (_order_new g)) as [[[]|e|] ord];
      inversion H; subst; exact Hstep.
Qed.

Lemma add_requirement_node_steps :
  forall available r parent,
    keeps add_steps (add_requirement_node available r parent).
Proof.
  intros available r parent g o g' H.
  unfold add_requirement_node in H.
  destruct (dict_get String.eqb (req_name r) (nodes g)) as [node|] eqn:Hnode.
  - eapply rt_trans; [apply rt_step; apply (@step_touch g (req_name r))|].
    remember (set_edges g (edges_touch (req_name r) (edges g))) as g1
      eqn:Hg1.
    assert (Hnode1 : dict_get String.eqb (req_name r) (nodes g1) = Some node)
      by (subst g1; exact Hnode).
    clear Hg1.
    unfold bind at 1 in H. unfold call in H.
    destruct (available (req_name r)) as [releases|e|];
      try (inversion H; subst; apply rt_refl).
    destruct releases as [|p1 releases'];
      [inversion H; subst; apply rt_refl|].
    destruct (filter (satisfies_all (to_satisfy g r)) (p1 :: releases'))
      as [|p rest]; [inversion H; subst; apply rt_refl|].
    destruct (pkg1_or_pkg node) as [[node_pkg|]|] eqn:Hpkg;
      try (inversion H; subst; apply rt_refl).
    destruct (needs_change (to_satisfy g r) node_pkg p).
    + unfold bind in H.
      destruct (_mark_for_change (req_name r) p parent r g1)
        as [[node'|e|] g2] eqn:Hm;
        inversion H; subst;
        eapply _mark_for_change_steps; eassumption.
    + unfold bind, _mark_new_requirement, ret in H. inversion H; subst.
      apply rt_step. apply @step_edge.
      unfold has_package, dict_has. now rewrite Hnode1.
  - unfold bind at 1 in H. unfold call in H.
    destruct (available (req_name r)) as [releases|e|];
      try (inversion H; subst; apply rt_refl).
    destruct releases as [|p1 releases'];
      [inversion H; subst; apply rt_refl|].
    destruct (filter (satisfies_all (to_satisfy g r)) (p1 :: releases'))
      as [|p rest]; [inversion H; subst; apply rt_refl|].
    unfold bind in H.
    destruct (_mark_for_install (req_name r) p parent r g)
      as [[node'|e|] g2] eqn:Hm;
      inversion H; subst;
      eapply _mark_for_install_steps; eassumption.
Qed.

(** Whether it returns or raises, [add_requirement] changes the graph only
    by its four moves. *)
Lemma add_requirement_steps :
  forall available fuel r nodeps parent g,
    add_steps g (snd (add_requirement available fuel r nodeps parent g)).
Proof.
  intros available fuel r nodeps parent g.
  destruct (add_requirement available fuel r nodeps parent g) as [o g'] eqn:E.
  simpl.
  eapply (keeps_add_requirement add_steps add_steps_refl add_steps_trans);
    [|exact E].
  apply add_requirement_node_steps.
Qed.

Lemma _mark_for_removal_steps :
  forall n, keeps remove_steps (_mark_for_removal n).
Proof.
  intros n g o g' H. unfold _mark_for_removal in H.
  destruct n as [n|]; [|inversion H; subst; apply rt_refl].
  destruct (dict_get String.eqb n (nodes g)) as [node|] eqn:Hnode;
    [|inversion H; subst; apply rt_refl].
  destruct (is_sentinal (pkg1 node)); [inversion H; subst; apply rt_refl|].
  destruct (pkg1 node) as [x|] eqn:Hp1; [inversion H; subst; apply rt_refl|].
  unfold bind, set_node, push_remove, ret in H.
  cbn [nodes set_nodes _order_remove] in H.
  pose proof (@rstep_remove g n node Hnode Hp1) as Hstep.
  apply rt_step.
  destruct (push n (_order_remove g)) as [[[]|e|] ord];
    inversion H; subst; exact Hstep.
Qed.

Lemma remove_package_keeps_steps :
  forall fuel n nodeps, keeps remove_steps (remove_package fuel n nodeps).
Proof.
  apply (keeps_remove_package remove_steps remove_steps_refl
                              remove_steps_trans).
  - apply _mark_for_removal_steps.
  - intros g n. apply rt_step. apply @rstep_touch.
Qed.

(** ** What [add_requirement] never does *)

Lemma add_grows_refl : forall g, add_grows g g.
Proof.
  intros g. repeat split; auto.
  - intros n node H. exists node. auto.
  - intros n node' H1 H2. congruence.
Qed.

Lemma add_grows_trans :
  forall a b c, add_grows a b -> add_grows b c -> add_grows a c.
Proof.
  intros a b c (A1 & A2 & A3 & A4) (B1 & B2 & B3 & B4).
  split; [|split; [|split]].
  - intros n node H. destruct (A1 _ _ H) as (node1 & H1 & P1 & S1).
    destruct (B1 _ _ H1) as (node2 & H2 & P2 & S2).
    exists node2. repeat split; congruence.
  - intros n node' Ha Hc.
    destruct (dict_get String.eqb n (nodes b)) as [node1|] eqn:Hb.
    + destruct (B1 _ _ Hb) as (node2 & H2 & _ & S2).
      rewrite Hc in H2. inversion H2; subst. rewrite S2.
      eapply A2; eassumption.
    + eapply B2; eassumption.
  - congruence.
  - auto.
Qed.

Lemma add_step_grows : forall g g', add_step g g' -> add_grows g g'.
Proof.
  intros g g' H.
  destruct H as [g n | g n b r Hn | g n p Hn | g n node p0 p Hn Hp Hs];
    (split; [|split; [|split]]); cbn [nodes edges set_edges _order_remove];
    try reflexivity.
  - intros m node H. exists node. auto.
  - intros m node' H1 H2. congruence.
  - intros m req. now rewrite edge_reqs_touch.
  - intros m node H. exists node. auto.
  - intros m node' H1 H2. congruence.
  - intros m req Hin. destruct (string_dec m n) as [->|Hne].
    + apply edge_reqs_append_same. now left.
    + now rewrite edge_reqs_append_other.
  - intros m node H. exists node.
    destruct (string_dec m n) as [->|Hne]; [congruence|].
    rewrite dict_get_set_other by exact Hne. auto.
  - intros m node' H1 H2. destruct (string_dec m n) as [->|Hne].
    + rewrite dict_get_set_same in H2. inversion H2; subst. reflexivity.
    + rewrite dict_get_set_other in H2 by exact Hne. congruence.
  - auto.
  - intros m node0 H. destruct (string_dec m n) as [->|Hne].
    + rewrite Hn in H. inversion H; subst node0.
      eexists. split; [apply dict_get_set_same|]. cbn [pkg pkg1].
      split; [now rewrite Hp|]. rewrite Hs.
      destruct (key_eqb (version_key p) (version_key p0)); reflexivity.
    + exists node0. rewrite dict_get_set_other by exact Hne. auto.
  - intros m node' H1 H2. destruct (string_dec m n) as [->|Hne].
    + congruence.
    + rewrite dict_get_set_other in H2 by exact Hne. congruence.
  - auto.
Qed.

Lemma add_steps_grows : forall g g', add_steps g g' -> add_grows g g'.
Proof.
  intros g g' H; induction H as [g g' H | g | a b c _ IH1 _ IH2].
  - now apply add_step_grows.
  - apply add_grows_refl.
  - eapply add_grows_trans; eassumption.
Qed.

(** X4: whether it returns or raises, [add_requirement] drops no node,
    replaces no installed distribution, marks no node for removal and takes
    no removal mark away, leaves [_order_remove] untouched and retracts no
    recorded requirement. *)
Theorem add_requirement_grows :
  forall available fuel r nodeps parent g,
    add_grows g (snd (add_requirement available fuel r nodeps parent g)).
Proof.
  intros. apply add_steps_grows. apply add_requirement_steps.
Qed.

(** ** What [remove_package] never does *)

Lemma remove_marks_refl : forall g, remove_marks g g.
Proof.
  intros g. repeat split; auto.
  intros n node H. exists node. auto.
Qed.

Lemma remove_marks_trans :
  forall a b c, remove_marks a b -> remove_marks b c -> remove_marks a c.
Proof.
  intros a b c (A1 & A2 & A3 & A4 & A5) (B1 & B2 & B3 & B4 & B5).
  assert (C1 : forall n node,
             dict_get String.eqb n (nodes a) = Some node ->
             exists node',
               dict_get String.eqb n (nodes c) = Some node' /\
               pkg node' = pkg node /\
               (pkg1 node' = pkg1 node \/
                (pkg1 node = None /\ pkg1 node' = Some sentinal_delete))).
  { intros n node H. destruct (A1 _ _ H) as (node1 & H1 & P1 & S1).
    destruct (B1 _ _ H1) as (node2 & H2 & P2 & S2).
    exists node2. split; [exact H2|]. split; [congruence|].
    destruct S1 as [S1|[S1 S1']], S2 as [S2|[S2 S2']].
    - left. congruence.
    - right. split; congruence.
    - right. split; congruence.
    - congruence. }
  assert (C5 : forall n, edge_reqs (edges c) n = edge_reqs (edges a) n)
    by (intros n; now rewrite B5, A5).
  split; [exact C1|]. split; [auto|]. split; [congruence|].
  split; [congruence|exact C5].
Qed.

Lemma remove_step_marks : forall g g', remove_step g g' -> remove_marks g g'.
Proof.
  intros g g' H. destruct H as [g n | g n node Hn Hp];
    (split; [|split; [|split; [|split]]]);
    cbn [nodes edges set_edges _order_new _order_change]; try reflexivity.
  - intros m node H. exists node. auto.
  - auto.
  - intros m. apply edge_reqs_touch.
  - intros m node0 H. destruct (string_dec m n) as [->|Hne].
    + rewrite Hn in H. inversion H; subst node0.
      eexists. split; [apply dict_get_set_same|]. cbn [pkg pkg1].
      split; [reflexivity|]. right. auto.
    + exists node0. rewrite dict_get_set_other by exact Hne. auto.
  - intros m H. destruct (string_dec m n) as [->|Hne]; [congruence|].
    now rewrite dict_get_set_other.
Qed.

Lemma remove_steps_marks : forall g g', remove_steps g g' -> remove_marks g g'.
Proof.
  intros g g' H; induction H as [g g' H | g | a b c _ IH1 _ IH2].
  - now apply remove_step_marks.
  - apply remove_marks_refl.
  - eapply remove_marks_trans; eassumption.
Qed.

Lemma remove_package_steps :
  forall fuel n nodeps g,
    remove_steps g (snd (remove_package fuel n nodeps g)).
Proof.
  intros fuel n nodeps g.
  destruct (remove_package fuel n nodeps g) as [o g'] eqn:E. simpl.
  eapply remove_package_keeps_steps. exact E.
Qed.

(** X5: whether it returns or raises, [remove_package] creates and drops
    no node, keeps every installed distribution, only ever turns a [pkg1]
    that is [None] into [sentinal_delete], leaves [_order_new] and
    [_order_change] untouched and leaves the requirements recorded on every
    name as they are. *)
Theorem remove_package_marks_only :
  forall fuel n nodeps g,
    remove_marks g (snd (remove_package fuel n nodeps g)).
Proof.
  intros. apply remove_steps_marks. apply remove_package_steps.
Qed.

(** ** Legal graphs *)

Lemma push_set_inv :
  forall e o x,
    mem x (_elements_set (snd (push e o))) = true ->
    mem x (_elements_set o) = true \/ x = e.
Proof.
  intros e o x H. unfold push in H.
  destruct (mem e (_elements_set o)).
  - destruct (mem e (_elements o)); left; exact H.
  - simpl in H. apply mem_In in H. apply in_app_or in H.
    destruct H as [H|[<-|[]]]; [left; now apply mem_In|now right].
Qed.

Lemma dict_get_In :
  forall (V : Type) k (d : list (string * V)) v,
    dict_get String.eqb k d = Some v -> In (k, v) d.
Proof.
  intros V k d v; induction d as [|[k' v'] d IH]; simpl; [discriminate|].
  destruct (String.eqb k k') eqn:E.
  - intros H. inversion H; subst. apply String.eqb_eq in E. subst. now left.
  - intros H. right. now apply IH.
Qed.

Lemma dict_get_None :
  forall (V : Type) k (d : list (string * V)),
    dict_get String.eqb k d = None <-> ~ In k (map fst d).
Proof.
  intros V k d; induction d as [|[k' v'] d IH]; simpl; [tauto|].
  destruct (String.eqb k k') eqn:E.
  - apply String.eqb_eq in E. subst. split; [discriminate|].
    intros H. elim H. now left.
  - apply String.eqb_neq in E. rewrite IH. split.
    + intros H [Hc|Hc]; [now elim E|tauto].
    + tauto.
Qed.

Lemma In_dict_get :
  forall (V : Type) k (d : list (string * V)) v,
    NoDup (map fst d) -> In (k, v) d -> dict_get String.eqb k d = Some v.
Proof.
  intros V k d v; induction d as [|[k' v'] d IH]; simpl; intros Hnd Hin;
    [destruct Hin|].
  inversion Hnd as [|x l Hx Hl]; subst.
  destruct Hin as [Hin|Hin].
  - inversion Hin; subst. now rewrite String.eqb_refl.
  - destruct (String.eqb k k') eqn:E.
    + apply String.eqb_eq in E. subst. elim Hx.
      apply (in_map fst) in Hin. exact Hin.
    + now apply IH.
Qed.

Lemma dict_set_keys :
  forall (V : Type) k (v : V) d,
    map fst (dict_set String.eqb k v d)
    = if dict_has String.eqb k d then map fst d else map fst d ++ [k].
Proof.
  intros V k v d; induction d as [|[k' v'] d IH]; simpl; [reflexivity|].
  unfold dict_has in *. simpl.
  destruct (String.eqb k k') eqn:E; simpl.
  - apply String.eqb_eq in E. now subst.
  - rewrite IH. destruct (dict_get String.eqb k d); reflexivity.
Qed.

Lemma dict_set_NoDup :
  forall (V : Type) k (v : V) d,
    NoDup (map fst d) -> NoDup (map fst (dict_set String.eqb k v d)).
Proof.
  intros V k v d H. rewrite dict_set_keys. unfold dict_has.
  destruct (dict_get String.eqb k d) eqn:E; [exact H|].
  apply dict_get_None in E.
  apply NoDup_app; [exact H|repeat constructor; simpl; tauto|].
  intros x Hx [<-|[]]. now apply E.
Qed.

Lemma has_package_set :
  forall g g' n node' x,
    nodes g' = dict_set String.eqb n node' (nodes g) ->
    has_package g x = true \/ x = n ->
    has_package g' x = true.
Proof.
  intros g g' n node' x Hn H. unfold has_package, dict_has in *.
  rewrite Hn. destruct (string_dec x n) as [->|Hne].
  - now rewrite dict_get_set_same.
  - rewrite dict_get_set_other by exact Hne.
    destruct H as [H|H]; [exact H|now elim Hne].
Qed.

(** Writing one legal node and pushing its name keeps a graph legal. *)
Lemma legal_set_node :
  forall g g' n node',
    graph_legal g ->
    nodes g' = dict_set String.eqb n node' (nodes g) ->
    (_order_new g' = _order_new g \/
     _order_new g' = snd (push n (_order_new g))) ->
    (_order_change g' = _order_change g \/
     _order_change g' = snd (push n (_order_change g))) ->
    (_order_remove g' = _order_remove g \/
     _order_remove g' = snd (push n (_order_remove g))) ->
    node_legal g' n node' ->
    graph_legal g'.
Proof.
  intros g g' n node' (Hnd & Hnodes & Hpushed & Wn & Wc & Wr)
         Hn Hon Hoc Hor Hleg.
  assert (Mn : forall x, mem x (_elements_set (_order_new g)) = true ->
                         mem x (_elements_set (_order_new g')) = true)
    by (intros x Hx; destruct Hon as [-> | ->];
        [exact Hx|now apply push_set_mono]).
  assert (Mc : forall x, mem x (_elements_set (_order_change g)) = true ->
                         mem x (_elements_set (_order_change g')) = true)
    by (intros x Hx; destruct Hoc as [-> | ->];
        [exact Hx|now apply push_set_mono]).
  assert (Mr : forall x, mem x (_elements_set (_order_remove g)) = true ->
                         mem x (_elements_set (_order_remove g')) = true)
    by (intros x Hx; destruct Hor as [-> | ->];
        [exact Hx|now apply push_set_mono]).
  split; [rewrite Hn; now apply dict_set_NoDup|].
  split; [|split; [|split; [|split]]].
  - intros m node Hm. rewrite Hn in Hm.
    destruct (string_dec m n) as [->|Hne].
    + rewrite dict_get_set_same in Hm. inversion Hm; subst. exact Hleg.
    + rewrite dict_get_set_other in Hm by exact Hne.
      destruct (Hnodes _ _ Hm) as (L1 & L2 & L3 & L4).
      split; [exact L1|]. split; [|split].
      * intros Hp. destruct (L2 Hp) as [Hex Hmem]. split; auto.
      * intros p0 p Hp0 Hp1. destruct (L3 _ _ Hp0 Hp1) as [Hk Hmem].
        split; auto.
      * intros Hs. auto.
  - intros x Hx. apply (has_package_set g g' n node' x Hn).
    destruct Hx as [Hx|[Hx|Hx]].
    + destruct Hon as [E|E]; rewrite E in Hx.
      * left. apply Hpushed. auto.
      * apply push_set_inv in Hx. destruct Hx as [Hx|Hx]; [|now right].
        left. apply Hpushed. auto.
    + destruct Hoc as [E|E]; rewrite E in Hx.
      * left. apply Hpushed. auto.
      * apply push_set_inv in Hx. destruct Hx as [Hx|Hx]; [|now right].
        left. apply Hpushed. auto.
    + destruct Hor as [E|E]; rewrite E in Hx.
      * left. apply Hpushed. auto.
      * apply push_set_inv in Hx. destruct Hx as [Hx|Hx]; [|now right].
        left. apply Hpushed. auto.
  - destruct Hon as [-> | ->]; [exact Wn|now apply order_wf_push].
  - destruct Hoc as [-> | ->]; [exact Wc|now apply order_wf_push].
  - destruct Hor as [-> | ->]; [exact Wr|now apply order_wf_push].
Qed.

Lemma legal_frame :
  forall g g',
    nodes g' = nodes g -> orders g' = orders g ->
    graph_legal g -> graph_legal g'.
Proof.
  intros g g' Hn Ho H. unfold orders in Ho. inversion Ho as [[E1 E2 E3]].
  unfold graph_legal, node_legal, has_package in *.
  rewrite Hn, E1, E2, E3. exact H.
Qed.

Lemma add_step_legal :
  forall g g', add_step g g' -> graph_legal g -> graph_legal g'.
Proof.
  intros g g' H HL.
  destruct H as [g n | g n b r Hn | g n p Hn | g n node p0 p Hn Hp Hs].
  - now apply (legal_frame g).
  - now apply (legal_frame g).
  - eapply (legal_set_node g _ n); try exact HL; cbn;
      [reflexivity|now right|now left|now left|].
    split; [reflexivity|]. cbn [pkg pkg1 _order_new].
    split; [|split].
    + intros _. split; [now exists p|apply push_set_mem].
    + intros q0 q H0. discriminate.
    + discriminate.
  - eapply (legal_set_node g _ n); try exact HL; cbn;
      [reflexivity|now left|now right|now left|].
    split; [reflexivity|]. cbn [pkg pkg1 _order_change].
    split; [|split].
    + discriminate.
    + intros q0 q H0 H1. inversion H0; subst q0.
      destruct (key_eqb (version_key p) (version_key p0)) eqn:E;
        [discriminate|].
      inversion H1; subst q. split; [exact E|apply push_set_mem].
    + destruct (key_eqb (version_key p) (version_key p0)); discriminate.
Qed.

Lemma remove_step_legal :
  forall g g', remove_step g g' -> graph_legal g -> graph_legal g'.
Proof.
  intros g g' H HL. destruct H as [g n | g n node Hn Hp].
  - now apply (legal_frame g).
  - eapply (legal_set_node g _ n); try exact HL; cbn;
      [reflexivity|now left|now left|now right|].
    destruct HL as (_ & Hnodes & _).
    destruct (Hnodes _ _ Hn) as (L1 & L2 & L3 & L4).
    split; [reflexivity|]. cbn [pkg pkg1 _order_remove].
    split; [|split].
    + intros Hnone. destruct (L2 Hnone) as [[q Hq] _]. congruence.
    + intros q0 q H0 H1. discriminate.
    + intros _. apply push_set_mem.
Qed.

Lemma add_steps_legal :
  forall g g', add_steps g g' -> graph_legal g -> graph_legal g'.
Proof.
  intros g g' H; induction H as [g g' H | g | a b c _ IH1 _ IH2]; auto.
  now apply add_step_legal.
Qed.

Lemma remove_steps_legal :
  forall g g', remove_steps g g' -> graph_legal g -> graph_legal g'.
Proof.
  intros g g' H; induction H as [g g' H | g | a b c _ IH1 _ IH2]; auto.
  now apply remove_step_legal.
Qed.

(** ** The loader *)

Lemma load_pass1_fold :
  forall l acc (Q : string -> Node -> Prop),
    NoDup (map fst acc) ->
    (forall n node, dict_get String.eqb n acc = Some node -> Q n node) ->
    (forall p, In p l -> Q (name p) (mkNode (name p) (Some p) None)) ->
    let res :=
      fold_left (fun ns ipkg =>
                   dict_set String.eqb (name ipkg)
                            (mkNode (name ipkg) (Some ipkg) None) ns)
                l acc in
    NoDup (map fst res) /\
    forall n node, dict_get String.eqb n res = Some node -> Q n node.
Proof.
  induction l as [|p l IH]; intros acc Q Hnd Hacc Hl; simpl.
  - split; assumption.
  - apply IH.
    + now apply dict_set_NoDup.
    + intros n node H. destruct (string_dec n (name p)) as [->|Hne].
      * rewrite dict_get_set_same in H. inversion H; subst.
        apply Hl. now left.
      * rewrite dict_get_set_other in H by exact Hne. now apply Hacc.
    + intros q Hq. apply Hl. now right.
Qed.

Lemma load_pass1_nodes :
  forall l,
    NoDup (map fst (load_pass1 l)) /\
    forall n node,
      dict_get String.eqb n (load_pass1 l) = Some node ->
      exists p, In p l /\ n = name p /\ node = mkNode (name p) (Some p) None.
Proof.
  intros l. unfold load_pass1.
  apply (load_pass1_fold l []
           (fun n node => exists p, In p l /\ n = name p /\
                                    node = mkNode (name p) (Some p) None)).
  - constructor.
  - intros n node H. discriminate.
  - intros p Hp. exists p. auto.
Qed.

Lemma load_nodes :
  forall l, nodes (_load_install_db l) = load_pass1 l.
Proof.
  intros l. unfold _load_install_db.
  destruct (load_pass2 (load_pass1 l)) as [e2 ex]. reflexivity.
Qed.

Lemma load_orders :
  forall l,
    orders (_load_install_db l) = (empty_Order, empty_Order, empty_Order).
Proof.
  intros l. unfold _load_install_db.
  destruct (load_pass2 (load_pass1 l)) as [e2 ex]. reflexivity.
Qed.

Lemma order_wf_empty : order_wf empty_Order.
Proof. split; [constructor|intros x []]. Qed.

Lemma loaded_legal :
  forall ipackages, graph_legal (_load_install_db ipackages).
Proof.
  intros l. pose proof (load_orders l) as Ho. unfold orders in Ho.
  injection Ho as E1 E2 E3.
  destruct (load_pass1_nodes l) as [Hnd Hnodes].
  unfold graph_legal. rewrite E1, E2, E3, load_nodes.
  split; [exact Hnd|]. split; [|split].
  - intros n node H. destruct (Hnodes _ _ H) as (p & _ & -> & ->).
    unfold node_legal. cbn [node_name pkg pkg1].
    split; [reflexivity|]. split; [discriminate|].
    split; [intros p0 q _ Hq; discriminate|discriminate].
  - intros x [H|[H|H]]; discriminate.
  - repeat split; try apply order_wf_empty.
Qed.

(** X6: the graph the loader builds is legal, whatever the installed
    distributions are: one node per name, each in the installed state, and
    the three order sequences are empty. *)
Theorem load_legal :
  forall ipackages,
    graph_legal (_load_install_db ipackages) /\
    orders (_load_install_db ipackages)
    = (empty_Order, empty_Order, empty_Order).
Proof.
  intros l. split; [apply loaded_legal|apply load_orders].
Qed.

Lemma load_pass1_distinct :
  forall l acc,
    NoDup (map name l) ->
    (forall p, In p l -> dict_get String.eqb (name p) acc = None) ->
    fold_left (fun ns ipkg =>
                 dict_set String.eqb (name ipkg)
                          (mkNode (name ipkg) (Some ipkg) None) ns)
              l acc
    = acc ++ map installed_node l.
Proof.
  induction l as [|p l IH]; intros acc Hnd Hacc; simpl;
    [now rewrite app_nil_r|].
  inversion Hnd as [|x xs Hp Hl]; subst.
  rewrite dict_set_fresh by (apply Hacc; now left).
  rewrite IH; [now rewrite <- app_assoc|exact Hl|].
  intros q Hq.
  rewrite (dict_get_app_none _ (name q) acc) by (apply Hacc; now right).
  simpl. destruct (String.eqb (name q) (name p)) eqn:E; [|reflexivity].
  apply String.eqb_eq in E. elim Hp. rewrite <- E.
  now apply in_map.
Qed.

(** X7: when the installed distributions have different names, the loader
    makes one node per distribution, in the order of the list, each
    holding its distribution with no pending action. *)
Theorem load_nodes_distinct :
  forall ipackages,
    NoDup (map name ipackages) ->
    nodes (_load_install_db ipackages) = map installed_node ipackages.
Proof.
  intros l Hnd. rewrite load_nodes. unfold load_pass1.
  rewrite load_pass1_distinct; [reflexivity|exact Hnd|].
  intros; reflexivity.
Qed.

Lemma load_nodes_distinct_witness :
  nodes ExampleDepGraph.graph
  = map installed_node ExampleDepGraph.get_installed_distributions.
Proof.
  apply (load_nodes_distinct ExampleDepGraph.get_installed_distributions).
  simpl. repeat constructor; simpl; intuition discriminate.
Defined.

(** ** The plan *)

Lemma collect_marks_none :
  forall l,
    (forall n node, In (n, node) l -> pkg1 node = None) ->
    collect_marks l = ([], [], []).
Proof.
  induction l as [|[n node] l IH]; intros H; simpl; [reflexivity|].
  rewrite IH by (intros m nd Hin; apply (H m); now right).
  rewrite (H n node) by now left. reflexivity.
Qed.

(** X8: right after loading, whatever is installed, [get_marks] returns
    the empty plan. *)
Theorem load_plan_empty :
  forall ipackages,
    get_marks (_load_install_db ipackages) = Ok (mkMarks [] [] []).
Proof.
  intros l. unfold get_marks. rewrite load_nodes.
  destruct (load_pass1_nodes l) as [Hnd Hnodes].
  rewrite collect_marks_none; [reflexivity|].
  intros n node Hin. apply In_dict_get in Hin; [|exact Hnd].
  destruct (Hnodes _ _ Hin) as (p & _ & _ & ->). reflexivity.
Qed.

Lemma reachable_legal :
  forall installed available g,
    reachable installed available g ->
    graph_legal g.
Proof.
  intros installed available g H.
  induction H as [| g fuel r nodeps b g' _ IH E | g fuel n nodeps g' _ IH E].
  - apply loaded_legal.
  - apply (add_steps_legal g); [|exact IH].
    pose proof (add_requirement_steps available fuel r nodeps None g) as Hs.
    rewrite E in Hs. exact Hs.
  - apply (remove_steps_legal g); [|exact IH].
    pose proof (remove_package_steps fuel (Some n) nodeps g) as Hs.
    rewrite E in Hs. exact Hs.
Qed.

(** X9: whether it returns or raises, [add_requirement] leaves a legal
    graph legal: the partial marks of a failed call are still nodes in one
    of the four states, with their names on the matching order
    sequence. *)
Theorem add_requirement_keeps_legal :
  forall available fuel r nodeps parent g,
    graph_legal g ->
    graph_legal (snd (add_requirement available fuel r nodeps parent g)).
Proof.
  intros available fuel r nodeps parent g H.
  apply (add_steps_legal g); [|exact H]. apply add_requirement_steps.
Qed.

Lemma add_requirement_keeps_legal_witness :
  graph_legal
    (snd (add_requirement ExampleDepGraph.get_available_distributions 2
                          (req "fabric" []) false None
                          ExampleDepGraph.graph_pycrypto_ge)).
Proof.
  apply (add_requirement_keeps_legal
           ExampleDepGraph.get_available_distributions 2 (req "fabric" [])
           false None ExampleDepGraph.graph_pycrypto_ge).
  apply (reachable_legal
           ExampleDepGraph.get_installed_distributions
           ExampleDepGraph.get_available_distributions).
  apply reach_add with (g := ExampleDepGraph.graph) (fuel := 1)
                       (nodeps := false)
                       (r := req "pycrypto" [(OpGe, "2.3")]) (b := true);
    [apply reach_init|].
  vm_compute. reflexivity.
Defined.

(** X10: whether it returns or raises, [remove_package] leaves a legal
    graph legal. *)
Theorem remove_package_keeps_legal :
  forall fuel n nodeps g,
    graph_legal g ->
    graph_legal (snd (remove_package fuel n nodeps g)).
Proof.
  intros fuel n nodeps g H.
  apply (remove_steps_legal g); [|exact H]. apply remove_package_steps.
Qed.

Lemma remove_package_keeps_legal_witness :
  graph_legal
    (snd (remove_package 2 (Some "pycrypto") false ExampleDepGraph.graph)).
Proof.
  apply (remove_package_keeps_legal 2 (Some "pycrypto") false
                                    ExampleDepGraph.graph).
  apply loaded_legal.
Defined.

Lemma collect_marks_install :
  forall l p,
    In p (fst (fst (collect_marks l))) <->
    exists n node,
      In (n, node) l /\ pkg node = None /\ pkg1 node = Some (Dist p).
Proof.
  induction l as [|[n node] l IH]; intros p; simpl.
  - split; [tauto|]. intros (m & nd & [] & _).
  - destruct (collect_marks l) as [[i c] r]. simpl in IH.
    assert (Hrest : In p i ->
              exists m nd, ((n, node) = (m, nd) \/ In (m, nd) l) /\
                           pkg nd = None /\ pkg1 nd = Some (Dist p)).
    { intros H. apply IH in H. destruct H as (m & nd & H1 & H2).
      exists m, nd. split; [now right|exact H2]. }
    destruct (pkg1 node) as [[p1|]|] eqn:E1; simpl.
    + destruct (pkg node) as [p0|] eqn:E0; simpl.
      * split; [exact Hrest|].
        intros (m & nd & [H|H] & H1 & H2).
        -- inversion H; subst. congruence.
        -- apply IH. eauto.
      * split.
        -- intros [<-|H]; [exists n, node; auto|now apply Hrest].
        -- intros (m & nd & [H|H] & H1 & H2).
           ++ inversion H; subst. left. congruence.
           ++ right. apply IH. eauto.
    + split; [exact Hrest|].
      intros (m & nd & [H|H] & H1 & H2).
      * inversion H; subst. congruence.
      * apply IH. eauto.
    + split; [exact Hrest|].
      intros (m & nd & [H|H] & H1 & H2).
      * inversion H; subst. congruence.
      * apply IH. eauto.
Qed.

Lemma collect_marks_change :
  forall l p0 p1,
    In (p0, p1) (snd (fst (collect_marks l))) <->
    exists n node,
      In (n, node) l /\ pkg node = Some p0 /\ pkg1 node = Some (Dist p1).
Proof.
  induction l as [|[n node] l IH]; intros p0 p1; simpl.
  - split; [tauto|]. intros (m & nd & [] & _).
  - destruct (collect_marks l) as [[i c] r]. simpl in IH.
    assert (Hrest : In (p0, p1) c ->
              exists m nd, ((n, node) = (m, nd) \/ In (m, nd) l) /\
                           pkg nd = Some p0 /\ pkg1 nd = Some (Dist p1)).
    { intros H. apply IH in H. destruct H as (m & nd & H1 & H2).
      exists m, nd. split; [now right|exact H2]. }
    destruct (pkg1 node) as [[q1|]|] eqn:E1; simpl.
    + destruct (pkg node) as [q0|] eqn:E0; simpl.
      * split.
        -- intros [H|H]; [|now apply Hrest].
           inversion H; subst. exists n, node. auto.
        -- intros (m & nd & [H|H] & H1 & H2).
           ++ inversion H; subst. left. congruence.
           ++ right. apply IH. eauto.
      * split; [exact Hrest|].
        intros (m & nd & [H|H] & H1 & H2).
        -- inversion H; subst. congruence.
        -- apply IH. eauto.
    + split; [exact Hrest|].
      intros (m & nd & [H|H] & H1 & H2).
      * inversion H; subst. congruence.
      * apply IH. eauto.
    + split; [exact Hrest|].
      intros (m & nd & [H|H] & H1 & H2).
      * inversion H; subst. congruence.
      * apply IH. eauto.
Qed.

Lemma collect_marks_remove :
  forall l x,
    In x (snd (collect_marks l)) <->
    exists n node,
      In (n, node) l /\ pkg node = x /\ pkg1 node = Some sentinal_delete.
Proof.
  induction l as [|[n node] l IH]; intros x; simpl.
  - split; [tauto|]. intros (m & nd & [] & _).
  - destruct (collect_marks l) as [[i c] r]. simpl in IH.
    assert (Hrest : In x r ->
              exists m nd, ((n, node) = (m, nd) \/ In (m, nd) l) /\
                           pkg nd = x /\ pkg1 nd = Some sentinal_delete).
    { intros H. apply IH in H. destruct H as (m & nd & H1 & H2).
      exists m, nd. split; [now right|exact H2]. }
    destruct (pkg1 node) as [[q1|]|] eqn:E1; simpl.
    + destruct (pkg node) as [q0|] eqn:E0; simpl.
      * split; [exact Hrest|].
        intros (m & nd & [H|H] & H1 & H2).
        -- inversion H; subst. congruence.
        -- apply IH. eauto.
      * split; [exact Hrest|].
        intros (m & nd & [H|H] & H1 & H2).
        -- inversion H; subst. congruence.
        -- apply IH. eauto.
    + split.
      * intros [<-|H]; [exists n, node; auto|now apply Hrest].
      * intros (m & nd & [H|H] & H1 & H2).
        -- inversion H; subst. now left.
        -- right. apply IH. eauto.
    + split; [exact Hrest|].
      intros (m & nd & [H|H] & H1 & H2).
      * inversion H; subst. congruence.
      * apply IH. eauto.
Qed.

Lemma all_some_In :
  forall (A : Type) (l : list (option A)) l',
    all_some l = Some l' -> forall x, In x l' <-> In (Some x) l.
Proof.
  intros A l; induction l as [|[a|] l IH]; intros l' H x; simpl in H.
  - inversion H; subst. simpl. tauto.
  - destruct (all_some l) as [t|]; [|discriminate].
    inversion H; subst. simpl. rewrite (IH t eq_refl x).
    split; intros [E|E]; auto; left; congruence.
  - discriminate.
Qed.

Lemma all_some_total :
  forall (A : Type) (l : list (option A)),
    (forall x, In x l -> x <> None) -> exists l', all_some l = Some l'.
Proof.
  intros A l; induction l as [|[a|] l IH]; intros H; simpl.
  - now exists [].
  - destruct IH as [t Ht]; [intros x Hx; apply H; now right|].
    rewrite Ht. now exists (a :: t).
  - elim (H None); [now left|reflexivity].
Qed.

(** X11: on a legal graph [get_marks] never raises. *)
Theorem get_marks_legal :
  forall g, graph_legal g -> exists m, get_marks g = Ok m.
Proof.
  intros g (Hnd & Hnodes & _). unfold get_marks.
  destruct (collect_marks (nodes g)) as [[i c] r] eqn:E.
  destruct (all_some_total _ r) as [r' Hr].
  - intros x Hx Hnone. subst x.
    pose proof (collect_marks_remove (nodes g) None) as Hc.
    rewrite E in Hc. simpl in Hc. apply Hc in Hx.
    destruct Hx as (n & node & Hin & Hp & Hs).
    apply In_dict_get in Hin; [|exact Hnd].
    destruct (Hnodes _ _ Hin) as (_ & L2 & _).
    destruct (L2 Hp) as [[q Hq] _]. congruence.
  - rewrite Hr. eexists. reflexivity.
Qed.

Lemma get_marks_legal_witness :
  exists m, get_marks ExampleDepGraph.graph = Ok m.
Proof.
  apply (get_marks_legal ExampleDepGraph.graph). apply loaded_legal.
Defined.

(** X12: when [get_marks] returns, its [install] list holds exactly the
    pending distributions of the nodes without installed distribution, its
    [change] list exactly the pairs (installed, pending) of the nodes that
    have both, and its [remove] list exactly the installed distributions
    of the nodes marked for removal. *)
Theorem get_marks_classifies :
  forall g m,
    get_marks g = Ok m ->
    (forall p,
       In p (install m) <->
       exists n node, In (n, node) (nodes g) /\
                      pkg node = None /\ pkg1 node = Some (Dist p)) /\
    (forall p0 p1,
       In (p0, p1) (change m) <->
       exists n node, In (n, node) (nodes g) /\
                      pkg node = Some p0 /\ pkg1 node = Some (Dist p1)) /\
    (forall p,
       In p (remove m) <->
       exists n node, In (n, node) (nodes g) /\
                      pkg node = Some p /\
                      pkg1 node = Some sentinal_delete).
Proof.
  intros g m H. unfold get_marks in H.
  pose proof (collect_marks_install (nodes g)) as Hi.
  pose proof (collect_marks_change (nodes g)) as Hc.
  pose proof (collect_marks_remove (nodes g)) as Hr.
  destruct (collect_marks (nodes g)) as [[i c] r]. simpl in Hi, Hc, Hr.
  destruct (all_some r) as [r'|] eqn:Er; [|discriminate].
  inversion H; subst m; clear H. cbn [install change remove].
  split; [|split].
  - intros p. rewrite <- Hi. split; intros Hin.
    + eapply Permutation_in; [apply Permutation_sym|exact Hin].
      apply rearrange_list_sorted.
    + eapply Permutation_in; [|exact Hin]. apply rearrange_list_sorted.
  - intros p0 p1. rewrite <- Hc. split; intros Hin.
    + eapply Permutation_in; [apply Permutation_sym|exact Hin].
      apply rearrange_list_sorted.
    + eapply Permutation_in; [|exact Hin]. apply rearrange_list_sorted.
  - intros p. rewrite <- Hr. rewrite <- (all_some_In _ r r' Er).
    split; intros Hin.
    + eapply Permutation_in; [apply Permutation_sym|exact Hin].
      apply rearrange_list_sorted.
    + eapply Permutation_in; [|exact Hin]. apply rearrange_list_sorted.
Qed.

Lemma get_marks_classifies_witness :
  In ExampleDepGraph.paramiko_0_9
     (install (mkMarks [ExampleDepGraph.paramiko_0_9]
                       [(ExampleDepGraph.fabric_0_9_1,
                         ExampleDepGraph.fabric_0_9_2)] [])) <->
  exists n node,
    In (n, node) (nodes graph_fabric) /\
    pkg node = None /\
    pkg1 node = Some (Dist ExampleDepGraph.paramiko_0_9).
Proof.
  apply (get_marks_classifies
           graph_fabric
           (mkMarks [ExampleDepGraph.paramiko_0_9]
                    [(ExampleDepGraph.fabric_0_9_1,
                      ExampleDepGraph.fabric_0_9_2)] [])).
  vm_compute. reflexivity.
Defined.

(** ** Removing a package *)

Lemma remove_marks_removed :
  forall g g' n, remove_marks g g' -> is_removed g n -> is_removed g' n.
Proof.
  intros g g' n (H1 & _) (node & Hn & Hs).
  destruct (H1 _ _ Hn) as (node' & Hn' & _ & [E|[E _]]).
  - exists node'. split; [exact Hn'|congruence].
  - congruence.
Qed.

Lemma is_sentinal_true :
  forall o, is_sentinal o = true -> o = Some sentinal_delete.
Proof. intros [[p|]|] H; try discriminate. reflexivity. Qed.

Lemma _mark_for_removal_Ok :
  forall n g x g',
    _mark_for_removal (Some n) g = (Ok x, g') ->
    is_removed g' n /\ edges g' = edges g /\
    (x = None -> g' = g /\ is_removed g n) /\
    (x <> None ->
     exists node, dict_get String.eqb n (nodes g) = Some node /\
                  pkg1 node = None).
Proof.
  intros n g x g' H. unfold _mark_for_removal in H.
  destruct (dict_get String.eqb n (nodes g)) as [node|] eqn:Hn;
    [|discriminate].
  destruct (is_sentinal (pkg1 node)) eqn:Hs.
  - inversion H; subst. apply is_sentinal_true in Hs.
    assert (Hr : is_removed g' n) by (exists node; auto).
    repeat split; auto. intros Hc. now elim Hc.
  - destruct (pkg1 node) as [o|] eqn:Hp; [discriminate|].
    unfold bind, set_node, push_remove, ret in H.
    cbn [nodes set_nodes _order_remove] in H.
    destruct (push n (_order_remove g)) as [[[]|e|] ord]; try discriminate.
    inversion H; subst. cbn [nodes edges set_order_remove set_nodes].
    split; [|split; [reflexivity|split]].
    + eexists. split; [apply dict_get_set_same|reflexivity].
    + discriminate.
    + intros _. exists node. auto.
Qed.

Lemma _mark_for_removal_removed :
  forall n g,
    is_removed g n -> _mark_for_removal (Some n) g = (Ok None, g).
Proof.
  intros n g (node & Hn & Hs). unfold _mark_for_removal.
  rewrite Hn, Hs. reflexivity.
Qed.

Lemma remove_package_S :
  forall fuel n nodeps,
    remove_package (S fuel) n nodeps =
    (node <- _mark_for_removal n ;;
     match node, n with
     | Some _, Some n' =>
         if nodeps then ret tt
         else
           fun g =>
             let g1 := set_edges g (edges_touch n' (edges g)) in
             let rdepends :=
               map fst (dict_find String.eqb [] n' (edges g1)) in
             for_each (fun name1 => remove_package fuel name1 false)
                      rdepends g1
     | _, _ => ret tt
     end).
Proof. reflexivity. Qed.

(** When [remove_package] returns, the node of its name is marked. *)
Lemma remove_package_removed :
  forall fuel n nodeps g g',
    remove_package fuel (Some n) nodeps g = (Ok tt, g') ->
    is_removed g' n.
Proof.
  intros fuel n nodeps g g' H.
  destruct fuel as [|fuel]; [discriminate|].
  rewrite remove_package_S in H. unfold bind in H.
  destruct (_mark_for_removal (Some n) g) as [[x|e|] g1] eqn:Hm;
    try discriminate.
  apply _mark_for_removal_Ok in Hm. destruct Hm as (Hr & _).
  destruct x as [node|]; [|inversion H; now subst].
  destruct nodeps; [inversion H; now subst|].
  cbv zeta in H.
  apply (remove_marks_removed
           (set_edges g1 (edges_touch n (edges g1))) g' n).
  - apply remove_steps_marks.
    eapply (keeps_for_each remove_steps remove_steps_refl remove_steps_trans);
      [|exact H].
    intros x. apply remove_package_keeps_steps.
  - exact Hr.
Qed.

(** X13: a second [remove_package] of a name whose removal returned does
    nothing at all: it returns and the graph is the same, whatever
    [nodeps] is. *)
Theorem remove_package_twice :
  forall fuel fuel' n nodeps nodeps' g g',
    remove_package fuel (Some n) nodeps g = (Ok tt, g') ->
    remove_package (S fuel') (Some n) nodeps' g' = (Ok tt, g').
Proof.
  intros fuel fuel' n nodeps nodeps' g g' H.
  apply remove_package_removed in H.
  rewrite remove_package_S. unfold bind.
  rewrite (_mark_for_removal_removed n g' H). reflexivity.
Qed.

Lemma remove_package_twice_witness :
  remove_package 1 (Some "pycrypto") true
    (snd (remove_package 2 (Some "pycrypto") false ExampleDepGraph.graph))
  = (Ok tt,
     snd (remove_package 2 (Some "pycrypto") false ExampleDepGraph.graph)).
Proof.
  apply (remove_package_twice 2 0 "pycrypto" false true
                              ExampleDepGraph.graph).
  vm_compute. reflexivity.
Defined.

Lemma for_each_removed :
  forall fuel l g g',
    for_each (fun name1 => remove_package fuel name1 false) l g
      = (Ok tt, g') ->
    forall b, In b l -> exists m, b = Some m /\ is_removed g' m.
Proof.
  intros fuel l; induction l as [|x l IH]; intros g g' H b Hb;
    [destruct Hb|].
  simpl in H. unfold bind in H.
  destruct (remove_package fuel x false g) as [[[]|e|] g1] eqn:Hx;
    try discriminate.
  destruct Hb as [<-|Hb]; [|eapply IH; eassumption].
  destruct x as [m|].
  - exists m. split; [reflexivity|].
    apply (remove_marks_removed g1 g' m).
    + apply remove_steps_marks.
      eapply (keeps_for_each remove_steps remove_steps_refl
                             remove_steps_trans); [|exact H].
      intros y. apply remove_package_keeps_steps.
    + eapply remove_package_removed. exact Hx.
  - destruct fuel; simpl in Hx; discriminate.
Qed.

(** X14: when [remove_package(n)] returns for a node that had no pending
    action, this node and every dependent recorded in [edges[n]] are
    marked for removal. *)
Theorem remove_package_cascades :
  forall fuel n g g' node,
    dict_get String.eqb n (nodes g) = Some node ->
    pkg1 node = None ->
    remove_package fuel (Some n) false g = (Ok tt, g') ->
    is_removed g' n /\
    forall b,
      In b (map fst (dict_find String.eqb [] n (edges g))) ->
      exists m, b = Some m /\ is_removed g' m.
Proof.
  intros fuel n g g' node Hn Hp H.
  split; [eapply remove_package_removed; exact H|].
  destruct fuel as [|fuel]; [discriminate|].
  rewrite remove_package_S in H. unfold bind in H.
  destruct (_mark_for_removal (Some n) g) as [[x|e|] g1] eqn:Hm;
    try discriminate.
  apply _mark_for_removal_Ok in Hm. destruct Hm as (_ & He & Hnone & _).
  destruct x as [node'|].
  - cbv zeta in H. cbn [edges set_edges] in H.
    rewrite dict_find_touch, He in H.
    eapply for_each_removed. exact H.
  - destruct (Hnone eq_refl) as [_ (nd & Hnd & Hs)]. congruence.
Qed.

Lemma remove_package_cascades_witness :
  is_removed
    (snd (remove_package 2 (Some "pycrypto") false ExampleDepGraph.graph))
    "pycrypto" /\
  forall b,
    In b (map fst (dict_find String.eqb [] "pycrypto"
                             (edges ExampleDepGraph.graph))) ->
    exists m,
      b = Some m /\
      is_removed
        (snd (remove_package 2 (Some "pycrypto") false
                             ExampleDepGraph.graph)) m.
Proof.
  apply (remove_package_cascades
           2 "pycrypto" ExampleDepGraph.graph
           (snd (remove_package 2 (Some "pycrypto") false
                                ExampleDepGraph.graph))
           (mkNode "pycrypto" (Some ExampleDepGraph.pycrypto_2_1) None)).
  - vm_compute. reflexivity.
  - reflexivity.
  - vm_compute. reflexivity.
Defined.

(** X15: [remove_package] refuses a name that has no node and a node that
    is pending for install or change: it raises [AssertionError] and the
    graph is as it was. *)
Theorem remove_package_rejects :
  forall fuel n nodeps g,
    (dict_get String.eqb n (nodes g) = None \/
     exists node p,
       dict_get String.eqb n (nodes g) = Some node /\
       pkg1 node = Some (Dist p)) ->
    remove_package (S fuel) (Some n) nodeps g = (Raise AssertionError, g).
Proof.
  intros fuel n nodeps g H. rewrite remove_package_S.
  unfold bind, _mark_for_removal.
  destruct H as [H|(node & p & H & Hp)]; rewrite H; [reflexivity|].
  rewrite Hp. reflexivity.
Qed.

Lemma remove_package_rejects_witness :
  remove_package 1 (Some "paramiko") false graph_fabric
  = (Raise AssertionError, graph_fabric).
Proof.
  apply (remove_package_rejects 0 "paramiko" false graph_fabric).
  right. exists (mkNode "paramiko" None
                        (Some (Dist ExampleDepGraph.paramiko_0_9))),
                ExampleDepGraph.paramiko_0_9.
  split; [vm_compute; reflexivity|reflexivity].
Defined.

(** X16: [add_requirement] never returns for a requirement on a package
    that is marked for removal. *)
Theorem add_requirement_removed_fails :
  forall available fuel r nodeps parent g b g',
    is_removed g (req_name r) ->
    add_requirement available fuel r nodeps parent g <> (Ok b, g').
Proof.
  intros available fuel r nodeps parent g b g' (node & Hn & Hs) H.
  destruct fuel as [|fuel]; [discriminate|].
  rewrite add_requirement_S in H. unfold bind in H.
  destruct (add_requirement_node available r parent g) as [[nr|e|] g1] eqn:E;
    try discriminate.
  apply add_requirement_node_Ok in E.
  destruct E as (releases & p & rest & _ & _ & Heff).
  destruct Heff as [ord Hnone Hpush | node0 node_pkg Hnode Hpkg Hch
                   | node0 node_pkg p0 ord Hnode Hpkg Hch Hp0 Hpush].
  - congruence.
  - rewrite Hn in Hnode. inversion Hnode; subst node0.
    unfold pkg1_or_pkg in Hpkg. rewrite Hs in Hpkg. discriminate.
  - rewrite Hn in Hnode. inversion Hnode; subst node0.
    unfold pkg1_or_pkg in Hpkg. rewrite Hs in Hpkg. discriminate.
Qed.

Lemma add_requirement_removed_fails_witness :
  add_requirement ExampleDepGraph.get_available_distributions 1
    (req "pycrypto" []) false None
    (snd (remove_package 2 (Some "pycrypto") false ExampleDepGraph.graph))
  <> (Ok false,
      snd (remove_package 2 (Some "pycrypto") false ExampleDepGraph.graph)).
Proof.
  apply (add_requirement_removed_fails
           ExampleDepGraph.get_available_distributions 1
           (req "pycrypto" []) false None
           (snd (remove_package 2 (Some "pycrypto") false
                                ExampleDepGraph.graph))).
  exists (mkNode "pycrypto" (Some ExampleDepGraph.pycrypto_2_1)
                 (Some sentinal_delete)).
  split; [vm_compute; reflexivity|reflexivity].
Defined.

(** ** What the return value of [add_requirement] tells *)

Lemma for_any_true :
  forall (A : Type) (f : A -> M bool) l g b g',
    for_any f l true g = (Ok b, g') -> b = true.
Proof.
  intros A f l; induction l as [|x l IH]; intros g b g' H; simpl in H.
  - now inversion H.
  - unfold bind in H. destruct (f x g) as [[b0|e|] g1]; try discriminate.
    eapply IH. exact H.
Qed.

Lemma for_any_false_unchanged :
  forall (A : Type) (f : A -> M bool),
    (forall x g g',
       graph_legal g -> f x g = (Ok false, g') ->
       nodes g' = nodes g /\ orders g' = orders g) ->
    forall l g g',
      graph_legal g -> for_any f l false g = (Ok false, g') ->
      nodes g' = nodes g /\ orders g' = orders g.
Proof.
  intros A f Hf l; induction l as [|x l IH]; intros g g' HL H; simpl in H.
  - inversion H; subst. auto.
  - unfold bind in H. destruct (f x g) as [[b0|e|] g1] eqn:E;
      try discriminate.
    destruct b0; simpl in H.
    + apply for_any_true in H. discriminate.
    + destruct (Hf _ _ _ HL E) as [N1 O1].
      assert (HL1 : graph_legal g1) by (apply (legal_frame g); assumption).
      destruct (IH _ _ HL1 H) as [N2 O2]. split; congruence.
Qed.

(** On a legal graph a change that returns sets a pending distribution. *)
Lemma effect_change_true :
  forall r p g node node_pkg p0,
    graph_legal g ->
    dict_get String.eqb (req_name r) (nodes g) = Some node ->
    pkg1_or_pkg node = Some (Dist node_pkg) ->
    needs_change (to_satisfy g r) node_pkg p = true ->
    pkg node = Some p0 ->
    mem (req_name r) (_elements_set (_order_change g)) = false ->
    key_eqb (version_key p) (version_key p0) = false.
Proof.
  intros r p g node node_pkg p0 (_ & Hnodes & _) Hn Hpkg Hch Hp0 Hmem.
  destruct (Hnodes _ _ Hn) as (_ & _ & L3 & _).
  unfold pkg1_or_pkg in Hpkg.
  destruct (pkg1 node) as [[q|]|] eqn:Hp1; try discriminate.
  - destruct (L3 _ _ Hp0 eq_refl) as [_ Hc]. congruence.
  - rewrite Hp0 in Hpkg. simpl in Hpkg. inversion Hpkg; subst node_pkg.
    unfold needs_change in Hch. rewrite key_eqb_sym.
    destruct (key_eqb (version_key p0) (version_key p)); [discriminate|].
    reflexivity.
Qed.

(** X17: on a legal graph, a call of [add_requirement] that returns
    [False] has changed no node and no order sequence: only edges were
    recorded. *)
Theorem add_requirement_false_unchanged :
  forall available fuel r nodeps parent g g',
    graph_legal g ->
    add_requirement available fuel r nodeps parent g = (Ok false, g') ->
    nodes g' = nodes g /\ orders g' = orders g.
Proof.
  intros available fuel; induction fuel as [|fuel IH];
    intros r nodeps parent g g' HL H; [discriminate|].
  rewrite add_requirement_S in H. unfold bind in H.
  destruct (add_requirement_node available r parent g) as [[nr|e|] g1] eqn:E;
    try discriminate.
  apply add_requirement_node_Ok in E.
  destruct E as (releases & p & rest & _ & _ & Heff).
  assert (Hkeep : snd nr = false ->
                  nodes g1 = nodes g /\ orders g1 = orders g).
  { destruct Heff as [ord Hnone Hpush | node node_pkg Hnode Hpkg Hch
                     | node node_pkg p0 ord Hnode Hpkg Hch Hp0 Hpush].
    - discriminate.
    - intros _. split; reflexivity.
    - cbn [snd]. intros Hret. unfold node' in Hret. cbn [pkg1] in Hret.
      apply push_Ok in Hpush. destruct Hpush as [Hmem _].
      rewrite (effect_change_true r p g node node_pkg p0
                                  HL Hnode Hpkg Hch Hp0 Hmem) in Hret.
      discriminate. }
  destruct nodeps.
  - inversion H as [[Hb Hg]]. subst g1. now apply Hkeep.
  - destruct (pkg1_or_pkg (fst nr)) as [[q|]|]; try discriminate.
    destruct (snd nr) eqn:Hret; [apply for_any_true in H; discriminate|].
    destruct (Hkeep eq_refl) as [N1 O1].
    assert (HL1 : graph_legal g1) by (apply (legal_frame g); assumption).
    destruct (for_any_false_unchanged _ _
                (fun x g0 g0' HL0 Hx => IH x false _ g0 g0' HL0 Hx)
                _ _ _ HL1 H) as [N2 O2].
    split; congruence.
Qed.

Lemma add_requirement_false_unchanged_witness :
  nodes ExampleDepGraph.graph_pycrypto_eq = nodes ExampleDepGraph.graph /\
  orders ExampleDepGraph.graph_pycrypto_eq = orders ExampleDepGraph.graph.
Proof.
  apply (add_requirement_false_unchanged
           ExampleDepGraph.get_available_distributions 1
           (req "pycrypto" [(OpEq, "2.1")]) false None
           ExampleDepGraph.graph ExampleDepGraph.graph_pycrypto_eq).
  - apply loaded_legal.
  - vm_compute. reflexivity.
Defined.

(** X18: on a legal graph, [add_requirement] with [nodeps] for a name that
    has no node, when a release satisfies the requirement, returns [True]
    and leaves the first such release pending for install, with the name
    last on [_order_new]. *)
Theorem add_requirement_installs :
  forall available fuel r parent g releases p rest,
    graph_legal g ->
    dict_get String.eqb (req_name r) (nodes g) = None ->
    available (req_name r) = Ok releases ->
    filter (fun q => version_in (version q) r) releases = p :: rest ->
    exists g',
      add_requirement available (S fuel) r true parent g = (Ok true, g') /\
      dict_get String.eqb (req_name r) (nodes g')
        = Some (mkNode (req_name r) None (Some (Dist p))) /\
      _elements (_order_new g') = _elements (_order_new g) ++ [req_name r].
Proof.
  intros available fuel r parent g releases p rest HL Hn Hav Hfil.
  assert (Hmem : mem (req_name r) (_elements_set (_order_new g)) = false).
  { destruct HL as (_ & _ & Hpushed & _).
    destruct (mem (req_name r) (_elements_set (_order_new g))) eqn:E;
      [|reflexivity].
    assert (Hh : has_package g (req_name r) = true) by (apply Hpushed; auto).
    unfold has_package, dict_has in Hh. rewrite Hn in Hh. discriminate. }
  assert (Hfil' : filter (satisfies_all (to_satisfy g r)) releases = p :: rest).
  { rewrite <- Hfil. apply filter_ext. intros q.
    unfold to_satisfy, satisfies_all. rewrite Hn. simpl.
    now rewrite andb_true_r. }
  rewrite add_requirement_S. unfold bind at 1.
  unfold add_requirement_node. rewrite Hn.
  unfold bind at 1. unfold call. rewrite Hav.
  destruct releases as [|p1 releases']; [discriminate|].
  rewrite Hfil'.
  unfold bind at 1. unfold _mark_for_install.
  unfold bind, assert, set_node, _mark_new_requirement, push_new, ret.
  unfold has_package, dict_has. rewrite Hn.
  cbn [negb nodes set_edges set_nodes edges _order_change _order_new
       _order_remove set_order_new].
  destruct (truthy parent);
    cbn [nodes set_edges set_nodes edges _order_change _order_new
         _order_remove set_order_new];
    rewrite (push_fresh _ _ Hmem);
    eexists; (split; [reflexivity|]);
    cbn [nodes _order_new _elements set_order_new set_nodes set_edges];
    (split; [apply dict_get_set_same|reflexivity]).
Qed.

Lemma add_requirement_installs_witness :
  exists g',
    add_requirement ExampleDepGraph.get_available_distributions 1
                    (req "paramiko" []) true None ExampleDepGraph.graph
      = (Ok true, g') /\
    dict_get String.eqb "paramiko" (nodes g')
      = Some (mkNode "paramiko" None
                     (Some (Dist ExampleDepGraph.paramiko_0_9))) /\
    _elements (_order_new g')
      = _elements (_order_new ExampleDepGraph.graph) ++ ["paramiko"].
Proof.
  apply (add_requirement_installs
           ExampleDepGraph.get_available_distributions 0
           (req "paramiko" []) None ExampleDepGraph.graph
           [ExampleDepGraph.paramiko_0_9] ExampleDepGraph.paramiko_0_9 []).
  - apply loaded_legal.
  - vm_compute. reflexivity.
  - vm_compute. reflexivity.
  - vm_compute. reflexivity.
Defined.

(** ** The edges of a loaded graph *)

Lemma opt_eqb_eq : forall a b, opt_eqb a b = true <-> a = b.
Proof.
  intros [a|] [b|]; simpl; split; intros H; try discriminate;
    try reflexivity.
  - apply String.eqb_eq in H. now subst.
  - inversion H; subst. apply String.eqb_refl.
Qed.

Lemma dict_get_touch_other :
  forall n e a,
    a <> n ->
    dict_get String.eqb a (edges_touch n e) = dict_get String.eqb a e.
Proof.
  intros n e a Hne. unfold edges_touch, dict_touch.
  destruct (dict_has String.eqb n e); [reflexivity|].
  destruct (dict_get String.eqb a e) eqn:E.
  - now apply dict_get_app_some.
  - rewrite (dict_get_app_none _ a e [(n, [])] E). simpl.
    apply String.eqb_neq in Hne. now rewrite Hne.
Qed.

Lemma edges_append_get :
  forall n1 n2 r e a inner,
    dict_get String.eqb a (edges_append n1 n2 r e) = Some inner ->
    (a = n1 /\
     inner = dict_set opt_eqb n2
               (dict_find opt_eqb [] n2 (dict_find String.eqb [] n1 e)
                ++ [r])
               (dict_find String.eqb [] n1 e)) \/
    (a <> n1 /\ dict_get String.eqb a e = Some inner).
Proof.
  intros n1 n2 r e a inner H. unfold edges_append in H.
  destruct (string_dec a n1) as [->|Hne].
  - left. rewrite dict_get_set_same in H. inversion H; subst.
    split; [reflexivity|]. now rewrite dict_find_touch.
  - right. rewrite dict_get_set_other in H by exact Hne.
    rewrite dict_get_touch_other in H by exact Hne. auto.
Qed.

Lemma inner_set_get :
  forall (b n2 : option string) (v : list Requirement) inner rl,
    dict_get opt_eqb b (dict_set opt_eqb n2 v inner) = Some rl ->
    b = n2 \/ dict_get opt_eqb b inner = Some rl.
Proof.
  intros b n2 v inner rl; induction inner as [|[k w] inner IH]; simpl.
  - destruct (opt_eqb b n2) eqn:E; [|discriminate].
    intros _. left. now apply opt_eqb_eq.
  - destruct (opt_eqb n2 k) eqn:E; simpl.
    + apply opt_eqb_eq in E. subst k.
      destruct (opt_eqb b n2) eqn:E2; [|auto].
      intros _. left. now apply opt_eqb_eq.
    + destruct (opt_eqb b k); [auto|exact IH].
Qed.

Lemma closed_in_append :
  forall ns e n1 m r,
    closed_in ns e ->
    dict_has String.eqb n1 ns = true ->
    dict_has String.eqb m ns = true ->
    closed_in ns (edges_append n1 (Some m) r e).
Proof.
  intros ns e n1 m r Hc H1 Hm a inner b rl Ha Hb.
  apply edges_append_get in Ha. destruct Ha as [[-> ->]|[Hne Ha]].
  - split; [exact H1|].
    apply inner_set_get in Hb. destruct Hb as [->|Hb]; [eauto|].
    unfold dict_find in Hb at 1.
    destruct (dict_get String.eqb n1 e) as [inner0|] eqn:E;
      [|discriminate].
    eapply Hc; eassumption.
  - eapply Hc; eassumption.
Qed.

Lemma load_requirements_closed :
  forall ns n reqs acc,
    (forall r, In r reqs -> extras r = []) ->
    dict_has String.eqb n ns = true ->
    closed_in ns (fst acc) -> snd acc = [] ->
    closed_in ns (fst (fold_left (load_requirement ns n) reqs acc)) /\
    snd (fold_left (load_requirement ns n) reqs acc) = [].
Proof.
  intros ns n reqs; induction reqs as [|r reqs IH];
    intros acc Hex Hn Hc Hs; simpl; [auto|].
  apply IH; [intros q Hq; apply Hex; now right|exact Hn| |].
  - unfold load_requirement.
    destruct (dict_has String.eqb (req_name r) ns) eqn:E; [|exact Hc].
    simpl. now apply closed_in_append.
  - unfold load_requirement.
    destruct (dict_has String.eqb (req_name r) ns); [|exact Hs].
    simpl. rewrite (Hex r) by now left. exact Hs.
Qed.

Lemma load_pass2_closed :
  forall ns l acc,
    (forall nn, In nn l ->
       dict_has String.eqb (fst nn) ns = true /\
       forall ipkg r,
         pkg (snd nn) = Some ipkg ->
         In r (get_requirements ipkg [] false) -> extras r = []) ->
    closed_in ns (fst acc) -> snd acc = [] ->
    let res :=
      fold_left (fun acc nn =>
                   match pkg (snd nn) with
                   | Some ipkg =>
                       fold_left (load_requirement ns (fst nn))
                                 (get_requirements ipkg [] false) acc
                   | None => acc
                   end) l acc in
    closed_in ns (fst res) /\ snd res = [].
Proof.
  intros ns l; induction l as [|nn l IH]; intros acc Hl Hc Hs; simpl;
    [auto|].
  destruct (Hl nn (or_introl eq_refl)) as [Hn Hex].
  assert (Hl' : forall nn0, In nn0 l ->
                  dict_has String.eqb (fst nn0) ns = true /\
                  forall ipkg r,
                    pkg (snd nn0) = Some ipkg ->
                    In r (get_requirements ipkg [] false) -> extras r = [])
    by (intros nn0 H0; apply Hl; now right).
  destruct (pkg (snd nn)) as [ipkg|] eqn:Ep.
  - assert (Hr : forall r, In r (get_requirements ipkg [] false) ->
                           extras r = [])
      by (intros r Hr; eapply Hex; [reflexivity|exact Hr]).
    destruct (load_requirements_closed ns (fst nn)
                (get_requirements ipkg [] false) acc Hr Hn Hc Hs)
      as [Hc1 Hs1].
    apply IH; assumption.
  - apply IH; assumption.
Qed.

Lemma load_edges_closed_in :
  forall ipackages,
    no_extras ipackages ->
    closed_in (load_pass1 ipackages) (edges (_load_install_db ipackages)).
Proof.
  intros l Hno. unfold _load_install_db.
  destruct (load_pass1_nodes l) as [Hnd Hnodes].
  pose proof (load_pass2_closed (load_pass1 l) (load_pass1 l) ([], [])) as H.
  cbv zeta in H. fold (load_pass2 (load_pass1 l)) in H.
  destruct (load_pass2 (load_pass1 l)) as [e2 ex]. simpl in H.
  destruct H as [Hc Hs].
  - intros [n node] Hin. simpl.
    pose proof (In_dict_get _ n (load_pass1 l) node Hnd Hin) as Hg.
    split; [unfold dict_has; now rewrite Hg|].
    destruct (Hnodes _ _ Hg) as (p & Hp & _ & ->).
    intros ipkg r Hi Hr. simpl in Hi. inversion Hi; subst ipkg.
    eapply Hno; eassumption.
  - intros a inner b rl Ha. discriminate.
  - reflexivity.
  - subst ex. simpl. exact Hc.
Qed.

Lemma example_no_extras :
  no_extras ExampleDepGraph.get_installed_distributions.
Proof.
  intros p r [<-|[<-|[<-|[]]]]; simpl; intros Hr;
    repeat (destruct Hr as [<-|Hr]; [reflexivity|]); destruct Hr.
Qed.

(** X19: when no default requirement of an installed distribution asks
    for an extra, every edge of the loaded graph joins two installed
    names: a requirement on a name that is not installed is dropped. *)
Theorem load_edges_closed :
  forall ipackages,
    no_extras ipackages -> edges_closed (_load_install_db ipackages).
Proof.
  intros l Hno a inner b rl Ha Hb.
  pose proof (load_edges_closed_in l Hno a inner b rl Ha Hb) as H.
  unfold has_package. rewrite load_nodes. exact H.
Qed.

Lemma load_edges_closed_witness :
  edges_closed ExampleDepGraph.graph.
Proof.
  apply (load_edges_closed ExampleDepGraph.get_installed_distributions).
  apply example_no_extras.
Defined.

(** ** Requirements are recorded on nodes only *)

Lemma edges_closed_owned : forall g, edges_closed g -> edges_owned g.
Proof.
  intros g Hc n Hhas. unfold edge_reqs, dict_find.
  destruct (dict_get String.eqb n (edges g)) as [inner|] eqn:E;
    [|reflexivity].
  destruct inner as [|[b rl] inner]; [reflexivity|].
  exfalso.
  assert (Hb : dict_get opt_eqb b ((b, rl) :: inner) = Some rl).
  { simpl. now rewrite (proj2 (opt_eqb_eq b b) eq_refl). }
  destruct (Hc _ _ _ _ E Hb) as [Hp _]. congruence.
Qed.

Lemma loaded_owned :
  forall ipackages,
    no_extras ipackages -> edges_owned (_load_install_db ipackages).
Proof.
  intros l Hno. apply edges_closed_owned.
  intros a inner b rl Ha Hb.
  pose proof (load_edges_closed_in l Hno a inner b rl Ha Hb) as H.
  unfold has_package. rewrite load_nodes. exact H.
Qed.

Lemma has_package_false_set :
  forall g n (node' : Node) x,
    dict_has String.eqb x (dict_set String.eqb n node' (nodes g)) = false ->
    has_package g x = false.
Proof.
  intros g n node' x H. unfold has_package, dict_has in *.
  destruct (string_dec x n) as [->|Hne].
  - rewrite dict_get_set_same in H. discriminate.
  - now rewrite dict_get_set_other in H by exact Hne.
Qed.

Lemma add_step_owned :
  forall g g', add_step g g' -> edges_owned g -> edges_owned g'.
Proof.
  intros g g' H Ho m Hm.
  destruct H as [g n | g n b r Hn | g n p Hn | g n node p0 p Hn Hp Hs];
    unfold has_package in Hm; cbn [nodes edges set_edges] in *.
  - rewrite edge_reqs_touch. now apply Ho.
  - destruct (string_dec m n) as [->|Hne].
    + unfold has_package in Hn. congruence.
    + rewrite edge_reqs_append_other by exact Hne. now apply Ho.
  - apply Ho. eapply has_package_false_set. exact Hm.
  - apply Ho. eapply has_package_false_set. exact Hm.
Qed.

Lemma add_steps_owned :
  forall g g', add_steps g g' -> edges_owned g -> edges_owned g'.
Proof.
  intros g g' H; induction H as [g g' H | g | a b c _ IH1 _ IH2]; auto.
  now apply add_step_owned.
Qed.

Lemma remove_marks_owned :
  forall g g', remove_marks g g' -> edges_owned g -> edges_owned g'.
Proof.
  intros g g' (H1 & H2 & _ & _ & H5) Ho m Hm.
  rewrite H5. apply Ho. unfold has_package, dict_has in *.
  destruct (dict_get String.eqb m (nodes g)) as [node|] eqn:E;
    [|reflexivity].
  destruct (H1 _ _ E) as (node' & E' & _). now rewrite E' in Hm.
Qed.

(** X20: whether it returns or raises, [add_requirement] records
    requirements only on names that have a node: if that held before the
    call, it holds after it. *)
Theorem add_requirement_keeps_owned :
  forall available fuel r nodeps parent g,
    edges_owned g ->
    edges_owned (snd (add_requirement available fuel r nodeps parent g)).
Proof.
  intros available fuel r nodeps parent g H.
  apply (add_steps_owned g); [|exact H]. apply add_requirement_steps.
Qed.

Lemma add_requirement_keeps_owned_witness :
  edges_owned (snd (add_requirement
                      ExampleDepGraph.get_available_distributions 3
                      (req "fabric" []) false None ExampleDepGraph.graph)).
Proof.
  apply (add_requirement_keeps_owned
           ExampleDepGraph.get_available_distributions 3 (req "fabric" [])
           false None ExampleDepGraph.graph).
  apply loaded_owned. apply example_no_extras.
Defined.

Lemma reachable_owned :
  forall installed available g,
    no_extras installed ->
    reachable installed available g -> edges_owned g.
Proof.
  intros installed available g Hno H.
  induction H as [| g fuel r nodeps b g' _ IH E | g fuel n nodeps g' _ IH E].
  - now apply loaded_owned.
  - apply (add_steps_owned g); [|exact IH].
    pose proof (add_requirement_steps available fuel r nodeps None g) as Hs.
    rewrite E in Hs. exact Hs.
  - apply (remove_marks_owned g); [|exact IH].
    apply remove_steps_marks.
    pose proof (remove_package_steps fuel (Some n) nodeps g) as Hs.
    rewrite E in Hs. exact Hs.
Qed.

(** X21: in every graph reached from an installed database whose default
    requirements ask for no extra, a call of [add_requirement] that
    returns leaves the node of its requirement with an effective
    distribution that satisfies the requirement and every requirement
    recorded for that name. *)
Theorem reachable_requirement_met :
  forall installed available g available' fuel r nodeps parent b g',
    no_extras installed ->
    reachable installed available g ->
    add_requirement available' fuel r nodeps parent g = (Ok b, g') ->
    requirement_met g' r.
Proof.
  intros installed available g available' fuel r nodeps parent b g'
         Hno Hr H.
  eapply add_requirement_met; [|exact H].
  apply (reachable_owned installed available g Hno Hr).
Qed.

Lemma reachable_requirement_met_witness :
  requirement_met graph_fabric (req "fabric" []).
Proof.
  apply (reachable_requirement_met
           ExampleDepGraph.get_installed_distributions
           ExampleDepGraph.get_available_distributions
           ExampleDepGraph.graph
           ExampleDepGraph.get_available_distributions 3
           (req "fabric" []) false None true graph_fabric).
  - apply example_no_extras.
  - apply reach_init.
  - vm_compute. reflexivity.
Defined.

(** ** A requirement that finds no distribution *)

Lemma bound_same :
  forall g r,
    let g1 := match dict_get String.eqb (req_name r) (nodes g) with
              | Some _ => set_edges g (edges_touch (req_name r) (edges g))
              | None => g
              end in
    nodes g1 = nodes g /\
    orders g1 = orders g /\
    forall n, edge_reqs (edges g1) n = edge_reqs (edges g) n.
Proof.
  intros g r. cbv zeta.
  destruct (dict_get String.eqb (req_name r) (nodes g)); simpl;
    repeat split; intros; try apply edge_reqs_touch; reflexivity.
Qed.

(** X22: when no release of the name satisfies the combined constraints
    (the releases being empty or not), the call has marked nothing when
    it raises: the nodes, the order sequences and the requirements
    recorded on every name are as before. *)
Theorem add_requirement_not_found_marks_nothing :
  forall available fuel r nodeps parent g releases,
    available (req_name r) = Ok releases ->
    filter (satisfies_all (to_satisfy g r)) releases = [] ->
    let g' := snd (add_requirement available (S fuel) r nodeps parent g) in
    nodes g' = nodes g /\
    orders g' = orders g /\
    forall n, edge_reqs (edges g') n = edge_reqs (edges g) n.
Proof.
  intros available fuel r nodeps parent g releases Hav Hfil g'. subst g'.
  pose proof (bound_same g r) as Hb. cbv zeta in Hb.
  destruct (add_requirement available (S fuel) r nodeps parent g)
    as [o g'] eqn:E.
  rewrite add_requirement_S in E. unfold bind at 1 in E.
  unfold add_requirement_node in E.
  unfold bind at 1 in E. unfold call in E. rewrite Hav in E.
  destruct releases as [|p1 releases'].
  - unfold raise in E. inversion E; subst. exact Hb.
  - rewrite Hfil in E. unfold raise in E. inversion E; subst. exact Hb.
Qed.

Lemma add_requirement_not_found_marks_nothing_witness :
  nodes (snd (add_requirement ExampleDepGraph.get_available_distributions 1
                (req "pycrypto" [(OpLt, "2.0")]) false None
                ExampleDepGraph.graph))
  = nodes ExampleDepGraph.graph.
Proof.
  apply (add_requirement_not_found_marks_nothing
           ExampleDepGraph.get_available_distributions 0
           (req "pycrypto" [(OpLt, "2.0")]) false None ExampleDepGraph.graph
           [ExampleDepGraph.pycrypto_2_3; ExampleDepGraph.pycrypto_2_1]).
  - reflexivity.
  - vm_compute. reflexivity.
Defined.

(** ** Where a [RequirementNotFound] comes from *)

(** Every [RequirementNotFound] comes from a failed lookup: that of the
    call, or that of a call made for a requirement of a distribution, on a
    graph that the moves of the call have led to. *)
Lemma raises_not_found_lookup :
  forall available fuel r nodeps parent g x rb,
    raises_not_found available fuel r nodeps parent g x rb ->
    exists r' parent' g' releases,
      add_steps g g' /\
      available (req_name r') = Ok releases /\
      lookup_fails releases g' r' parent' x rb.
Proof.
  intros available fuel r nodeps parent g x rb H.
  induction H as [fuel r nodeps parent g releases x rb Hav Hf
                 |fuel r parent g node ret0 g1 p done r' rest ret1 g' x rb
                    Hnode Hp Hl Hdone Hr' IH].
  - exists r, parent, g, releases. split; [apply add_steps_refl|]. auto.
  - destruct IH as (r2 & parent2 & g2 & releases & Hst & Hav & Hf).
    exists r2, parent2, g2, releases. split; [|auto].
    apply add_steps_trans with g1;
      [exact (add_requirement_node_steps available r parent g _ _ Hnode)|].
    apply add_steps_trans with g'; [|exact Hst].
    refine (keeps_for_any add_steps add_steps_refl add_steps_trans _ _ _
              done ret0 g1 _ _ Hdone).
    intros r0 g0 o g0' H0.
    pose proof (add_requirement_steps available fuel r0 false
                  (Some (node_name node)) g0) as Hs.
    now rewrite H0 in Hs.
Qed.

(** C9, as stated, fails: the loader of [MissingExtra] has recorded
    [pycrypto<=2.1] on pycrypto, which has no node; no release of pycrypto
    satisfies both [pycrypto>2.1] and the recorded requirement, and
    [add_requirement("pycrypto>2.1")] returns [True] all the same. *)
Lemma add_requirement_orphan_constraints_returns :
  MissingExtra.get_available_distributions "pycrypto"
    = Ok [ExampleDepGraph.pycrypto_2_3; ExampleDepGraph.pycrypto_2_1] /\
  edge_reqs (edges MissingExtra.graph) "pycrypto"
    = [req "pycrypto" [(OpLe, "2.1")]] /\
  filter (satisfies_all
            (req "pycrypto" [(OpGt, "2.1")]
             :: edge_reqs (edges MissingExtra.graph) "pycrypto"))
         [ExampleDepGraph.pycrypto_2_3; ExampleDepGraph.pycrypto_2_1] = [] /\
  add_requirement MissingExtra.get_available_distributions 1
                  (req "pycrypto" [(OpGt, "2.1")]) false None
                  MissingExtra.graph
    = (Ok true,
       snd (add_requirement MissingExtra.get_available_distributions 1
                            (req "pycrypto" [(OpGt, "2.1")]) false None
                            MissingExtra.graph)) /\
  dict_get String.eqb "pycrypto"
    (nodes (snd (add_requirement MissingExtra.get_available_distributions 1
                   (req "pycrypto" [(OpGt, "2.1")]) false None
                   MissingExtra.graph)))
    = Some (mkNode "pycrypto" None (Some (Dist ExampleDepGraph.pycrypto_2_3))).
Proof. repeat split; vm_compute; reflexivity. Qed.

(** C9, amended. The combined constraint set [to_satisfy] is [r], and the
    requirements recorded in [edges[name]] only when the name has a node.
    For a collaborator that raises no [RequirementNotFound] itself: when
    its answer for the name is empty the call raises
    [RequirementNotFound(r, parent)], and when no release of a non-empty
    answer satisfies every constraint it raises [RequirementNotFound] with
    the joined constraints and the parent; with [nodeps] the call raises
    the error in these two cases only; without it the only other case is
    that lines 262-330 and the calls for the earlier requirements of the
    distribution returned and the call for the next one raises the error,
    in the same way, so that every such error is that of a failed lookup
    on a graph that the moves of the call have led to. *)
Theorem add_requirement_not_found :
  forall available,
    (forall n x rb, available n <> Raise (RequirementNotFound x rb)) ->
    forall r parent g,
      to_satisfy g r
      = (if has_package g (req_name r)
         then r :: edge_reqs (edges g) (req_name r) else [r]) /\
      (forall fuel nodeps releases x rb,
         available (req_name r) = Ok releases ->
         lookup_fails releases g r parent x rb ->
         fst (add_requirement available (S fuel) r nodeps parent g)
         = Raise (RequirementNotFound x rb)) /\
      (forall fuel x rb,
         fst (add_requirement available (S fuel) r true parent g)
         = Raise (RequirementNotFound x rb)
         <-> exists releases,
               available (req_name r) = Ok releases /\
               lookup_fails releases g r parent x rb) /\
      (forall fuel nodeps x rb,
         fst (add_requirement available fuel r nodeps parent g)
         = Raise (RequirementNotFound x rb)
         <-> raises_not_found available fuel r nodeps parent g x rb) /\
      (forall fuel nodeps x rb,
         fst (add_requirement available fuel r nodeps parent g)
         = Raise (RequirementNotFound x rb) ->
         exists r' parent' g' releases,
           add_steps g g' /\
           available (req_name r') = Ok releases /\
           lookup_fails releases g' r' parent' x rb).
Proof.
  intros available Hcol r parent g.
  split; [|split; [|split; [|split]]].
  - unfold to_satisfy, has_package, dict_has.
    destruct (dict_get String.eqb (req_name r) (nodes g)); reflexivity.
  - intros fuel nodeps releases x rb Hav Hf.
    apply add_requirement_raises_not_found; [exact Hcol|].
    eapply raised_here; eauto.
  - intros fuel x rb.
    rewrite <- (add_requirement_node_raises available r parent g x rb Hcol).
    rewrite add_requirement_S. unfold bind.
    destruct (add_requirement_node available r parent g) as [[nr|e|] g1];
      simpl; split; intros Hc; try discriminate; congruence.
  - intros fuel nodeps x rb.
    now apply add_requirement_raises_not_found.
  - intros fuel nodeps x rb H.
    apply add_requirement_raises_not_found in H; [|exact Hcol].
    now apply raises_not_found_lookup in H.
Qed.

(** The claim on a catalog whose json is too old for web:
    [add_requirement("web")] marks web for install and raises for its
    requirement [json>=2.0], with web as the parent. *)
Lemma add_requirement_not_found_witness :
  raises_not_found Unmet.get_available_distributions 2 (req "web" []) false
                   None Unmet.graph (inr "json>=2.0") (Some "web").
Proof.
  apply (add_requirement_not_found Unmet.get_available_distributions).
  - intros n x rb. unfold Unmet.get_available_distributions.
    destruct (String.eqb n "web"); [discriminate|].
    destruct (String.eqb n "json"); discriminate.
  - vm_compute. reflexivity.
Defined.

(** ** Calling [add_requirement] twice, with the requirements of the
    distributions *)























